(** * MyEzz user app: the order services

    A shallow embedding of [src/api/riderService.js] and
    [src/api/unifiedOrderService.js].

    - JavaScript values are a small inductive type; numbers are kept abstract
      behind the class [JsNumber], so nothing below depends on how the engine
      rounds.
    - Plain objects are association lists in insertion order; reading a
      property falls back on [Object.prototype], enumeration puts array
      indices first.
    - The module-level [socket] variable, the connection objects made by
      [io], the requests handed to axios and the console are fields of one
      [World]; every exported function is a computation in the monad [M]
      (state plus a thrown value). *)

From Stdlib Require Import ZArith Lia Ascii String Permutation.
From stdpp Require Import base list strings pretty.

Local Open Scope string_scope.
Local Open Scope list_scope.
Set Warnings "-register-all".

(** ** Numbers *)

(** What the program asks of the Number type. *)
Class JsNumber (num : Type) := {
  num_lit : Z -> num;                (* an integer literal: 0, 1, 30 *)
  num_nan : num;                     (* NaN *)
  num_add : num -> num -> num;       (* + on two numbers *)
  num_mul : num -> num -> num;       (* * on two numbers *)
  num_truthy : num -> bool;          (* ToBoolean: false on 0, -0 and NaN *)
  num_to_string : num -> string;     (* Number.prototype.toString *)
  num_of_string : string -> num;     (* StringToNumber *)
  num_parseInt : string -> num       (* the global parseInt, radix omitted *)
}.

(** *** Decimal numerals *)

Definition digit_of (c : ascii) : option N :=
  let n := N_of_ascii c in
  if ((48 <=? n) && (n <=? 57))%N then Some (n - 48)%N else None.

Fixpoint digits_value (acc : N) (s : string) : option N :=
  match s with
  | EmptyString => Some acc
  | String c s' =>
      match digit_of c with
      | Some d => digits_value (10 * acc + d)%N s'
      | None => None
      end
  end.

(** *** A number type to run the model on

    Integers and NaN: enough to evaluate the definitions below on concrete
    carts. Numerals with a fraction or an exponent are beyond it. *)

Inductive znum : Type := ZNaN | ZInt (z : Z).

Definition znum_add (a b : znum) : znum :=
  match a, b with
  | ZInt x, ZInt y => ZInt (x + y)
  | _, _ => ZNaN
  end.

Definition znum_mul (a b : znum) : znum :=
  match a, b with
  | ZInt x, ZInt y => ZInt (x * y)
  | _, _ => ZNaN
  end.

Definition znum_truthy (a : znum) : bool :=
  match a with
  | ZInt z => negb (z =? 0)%Z
  | ZNaN => false
  end.

Definition znum_to_string (a : znum) : string :=
  match a with
  | ZInt z => pretty z
  | ZNaN => "NaN"
  end.

Definition is_space (c : ascii) : bool :=
  let n := N_of_ascii c in ((n =? 32) || ((9 <=? n) && (n <=? 13)))%N.

Fixpoint skip_spaces (s : string) : string :=
  match s with
  | String c s' => if is_space c then skip_spaces s' else s
  | EmptyString => s
  end.

(** The longest run of decimal digits at the front of [s], if any. *)
Fixpoint leading_digits (acc : option N) (s : string) : option N :=
  match s with
  | String c s' =>
      match digit_of c with
      | Some d => leading_digits (Some (10 * default 0 acc + d)%N) s'
      | None => acc
      end
  | EmptyString => acc
  end.

Definition signed (negative : bool) (n : option N) : znum :=
  match n with
  | Some n => ZInt (if negative then - Z.of_N n else Z.of_N n)
  | None => ZNaN
  end.

(** [parseInt] on decimal numerals: blanks, a sign, then digits. *)
Definition znum_parseInt (s : string) : znum :=
  match skip_spaces s with
  | String "-" s' => signed true (leading_digits None s')
  | String "+" s' => signed false (leading_digits None s')
  | s' => signed false (leading_digits None s')
  end.

Fixpoint only_spaces (s : string) : bool :=
  match s with
  | String c s' => is_space c && only_spaces s'
  | EmptyString => true
  end.

(** The digits at the front of [s], when only blanks follow them. *)
Fixpoint whole_digits (acc : option N) (s : string) : option N :=
  match s with
  | String c s' =>
      match digit_of c with
      | Some d => whole_digits (Some (10 * default 0 acc + d)%N) s'
      | None => if only_spaces s then acc else None
      end
  | EmptyString => acc
  end.

(** StringToNumber on decimal integers; the empty string is 0. *)
Definition znum_of_string (s : string) : znum :=
  match skip_spaces s with
  | EmptyString => ZInt 0
  | String "-" s' => signed true (whole_digits None s')
  | String "+" s' => signed false (whole_digits None s')
  | s' => signed false (whole_digits None s')
  end.

#[export] Instance znum_number : JsNumber znum := {|
  num_lit := ZInt;
  num_nan := ZNaN;
  num_add := znum_add;
  num_mul := znum_mul;
  num_truthy := znum_truthy;
  num_to_string := znum_to_string;
  num_of_string := znum_of_string;
  num_parseInt := znum_parseInt
|}.

Section MyEzz.

Context {num : Type} {JN : JsNumber num}.

(** ** Values *)

Inductive native : Type :=
| NativeFunction (name : string)     (* a built-in function object *)
| ObjectPrototype.                   (* the object %Object.prototype% *)

Inductive value : Type :=
| VUndefined
| VNull
| VBool (b : bool)
| VNum (n : num)
| VStr (s : string)
| VArr (xs : list value)
| VObj (props : list (string * value))
| VNative (f : native).

(** A plain object: its own enumerable properties, in insertion order. *)
Definition obj (A : Type) : Type := list (string * A).

(** ToBoolean. *)
Definition truthy (v : value) : bool :=
  match v with
  | VUndefined | VNull => false
  | VBool b => b
  | VNum n => num_truthy n
  | VStr s => negb (bool_decide (s = ""))
  | VArr _ | VObj _ | VNative _ => true
  end.

(** [a || b] *)
Definition js_or (a b : value) : value := if truthy a then a else b.

(** ToString. Objects are plain data: none overrides [toString]. *)
Fixpoint to_string (v : value) : string :=
  match v with
  | VUndefined => "undefined"
  | VNull => "null"
  | VBool true => "true"
  | VBool false => "false"
  | VNum n => num_to_string n
  | VStr s => s
  | VArr xs =>
      let elt x := match x with VUndefined | VNull => "" | _ => to_string x end in
      (fix join (l : list value) : string :=
         match l with
         | [] => ""
         | [x] => elt x
         | x :: rest => elt x +:+ "," +:+ join rest
         end) xs
  | VObj _ => "[object Object]"
  | VNative (NativeFunction name) => "function " +:+ name +:+ "() { [native code] }"
  | VNative ObjectPrototype => "[object Object]"
  end.

(** ToNumber. *)
Definition to_number (v : value) : num :=
  match v with
  | VUndefined => num_nan
  | VNull => num_lit 0
  | VBool true => num_lit 1
  | VBool false => num_lit 0
  | VNum n => n
  | VStr s => num_of_string s
  | VArr _ | VObj _ | VNative _ => num_of_string (to_string v)
  end.

(** [a * b] *)
Definition js_mul (a b : value) : value :=
  VNum (num_mul (to_number a) (to_number b)).

(** [a + b]: concatenation as soon as one side is (or converts to) a string. *)
Definition js_add (a b : value) : value :=
  let stringy v :=
    match v with VStr _ | VArr _ | VObj _ | VNative _ => true | _ => false end in
  if stringy a || stringy b
  then VStr (to_string a +:+ to_string b)
  else VNum (num_add (to_number a) (to_number b)).

(** ** Plain objects *)

Fixpoint own_get {A} (o : obj A) (k : string) : option A :=
  match o with
  | [] => None
  | (k', v) :: o' => if decide (k' = k) then Some v else own_get o' k
  end.

(** Define (or overwrite) the own property [k]; a new key goes last. *)
Fixpoint obj_set {A} (o : obj A) (k : string) (v : A) : obj A :=
  match o with
  | [] => [(k, v)]
  | (k', v') :: o' =>
      if decide (k' = k) then (k, v) :: o' else (k', v') :: obj_set o' k v
  end.

(** What every object literal inherits from [Object.prototype]. *)
Definition object_prototype_props : obj value :=
  [ ("constructor", VNative (NativeFunction "Object"));
    ("__proto__", VNative ObjectPrototype);
    ("hasOwnProperty", VNative (NativeFunction "hasOwnProperty"));
    ("isPrototypeOf", VNative (NativeFunction "isPrototypeOf"));
    ("propertyIsEnumerable", VNative (NativeFunction "propertyIsEnumerable"));
    ("toLocaleString", VNative (NativeFunction "toLocaleString"));
    ("toString", VNative (NativeFunction "toString"));
    ("valueOf", VNative (NativeFunction "valueOf"));
    ("__defineGetter__", VNative (NativeFunction "__defineGetter__"));
    ("__defineSetter__", VNative (NativeFunction "__defineSetter__"));
    ("__lookupGetter__", VNative (NativeFunction "__lookupGetter__"));
    ("__lookupSetter__", VNative (NativeFunction "__lookupSetter__")) ].

Definition object_prototype (k : string) : option value :=
  own_get object_prototype_props k.

(** [o[k]] on an object literal [o]: own property, else inherited, else
    [undefined]. *)
Definition obj_get (o : obj value) (k : string) : value :=
  match own_get o k with
  | Some v => v
  | None => default VUndefined (object_prototype k)
  end.

(** *** Enumeration order

    [Object.keys] and [Object.entries] list the keys that are array indices
    (canonical decimal numerals below 2^32 - 1) in ascending numeric order,
    then every other key in insertion order. *)

Definition array_index (k : string) : option N :=
  match k with
  | EmptyString => None
  | String c rest =>
      if bool_decide (c = "0"%char)
      then (if bool_decide (rest = "") then Some 0%N else None)
      else match digits_value 0 k with
           | Some n => if (n <? 2 ^ 32 - 1)%N then Some n else None
           | None => None
           end
  end.

Fixpoint insert_indexed {A} (i : N) (e : string * A)
    (l : list (N * (string * A))) : list (N * (string * A)) :=
  match l with
  | [] => [(i, e)]
  | (j, e') :: l' =>
      if (i <? j)%N then (i, e) :: l else (j, e') :: insert_indexed i e l'
  end.

Fixpoint indexed_part {A} (o : obj A) : list (N * (string * A)) :=
  match o with
  | [] => []
  | (k, v) :: o' =>
      match array_index k with
      | Some i => insert_indexed i (k, v) (indexed_part o')
      | None => indexed_part o'
      end
  end.

Fixpoint named_part {A} (o : obj A) : obj A :=
  match o with
  | [] => []
  | (k, v) :: o' =>
      match array_index k with
      | Some _ => named_part o'
      | None => (k, v) :: named_part o'
      end
  end.

(** [Object.entries(o)] *)
Definition Object_entries {A} (o : obj A) : list (string * A) :=
  (snd <$> indexed_part o) ++ named_part o.

(** [Object.keys(o)] *)
Definition Object_keys {A} (o : obj A) : list string :=
  fst <$> Object_entries o.

(** [{...v}]: the own enumerable properties a spread copies. *)
Definition spread (v : value) : obj value :=
  match v with
  | VObj props => Object_entries props
  | VArr xs => imap (fun i x => (pretty i, x)) xs
  | VStr s => imap (fun i c => (pretty i, VStr (String c ""))) (list_ascii_of_string s)
  | _ => []
  end.

(** ** formatOrderStatus (unifiedOrderService.js) *)

Definition status_entry (label color icon : string) : value :=
  VObj [("label", VStr label); ("color", VStr color); ("icon", VStr icon)].

Definition statusMap : obj value :=
  [ ("pending_restaurant", status_entry "Waiting for Restaurant" "yellow" "⏳");
    ("preparing", status_entry "Being Prepared" "blue" "👨‍🍳");
    ("ready_for_pickup", status_entry "Ready for Pickup" "purple" "📦");
    ("rider_assigned", status_entry "Rider Assigned" "indigo" "🛵");
    ("picked_up", status_entry "Picked Up" "cyan" "✅");
    ("out_for_delivery", status_entry "Out for Delivery" "orange" "🚀");
    ("delivered", status_entry "Delivered" "green" "🎉");
    ("rejected", status_entry "Rejected" "red" "❌");
    ("cancelled", status_entry "Cancelled" "gray" "🚫") ].

Definition formatOrderStatus (status : value) : value :=
  js_or (obj_get statusMap (to_string status))
        (VObj [("label", status); ("color", VStr "gray"); ("icon", VStr "❓")]).

(** ** The world around the two modules *)

(** What a [throw] carries: the rejection of a request, whatever it is, or a
    TypeError raised by the engine. *)
Inductive thrown : Type :=
| Thrown (e : value)
| TypeError (msg : string).

(** The axios instances. Both files build [unifiedApiClient] on the same
    base URL. *)
Inductive client : Type := riderApiClient | unifiedApiClient.

Inductive method : Type := GET | POST.

Record request : Type := {
  req_client : client;
  req_method : method;
  req_url : string;
  req_data : value;            (* the body of a post, [undefined] for a get *)
  req_params : obj value       (* [config.params] *)
}.

Record response : Type := { data : value }.

(** The servers: the outcome of a request, given the requests made before. *)
Definition Backend : Type := list request -> request -> response + thrown.

(** A function of the caller, by name. Calling it is recorded; what it does
    is the caller's business. *)
Definition callback : Type := string.

Record Callbacks : Type := {
  onConnect : option callback;
  onDisconnect : option callback;
  onOrderAccepted : option callback;
  onOrderRejected : option callback;
  onStatusUpdate : option callback;
  onOrderUpdate : option callback;
  onRiderLocation : option callback
}.

(** The arrow functions [initializeRealtimeConnection] passes to
    [socket.on], with what each closes over. *)
Inductive listener : Type :=
| OnConnect (customerId : value) (callbacks : Callbacks)
| OnDisconnect (callbacks : Callbacks)
| OnAuthenticated
| OnOrderAccepted (callbacks : Callbacks)
| OnOrderRejected (callbacks : Callbacks)
| OnOrderStatusUpdated (callbacks : Callbacks)
| OnOrderUpdated (callbacks : Callbacks)
| OnRiderLocation (callbacks : Callbacks).

Record IoOptions : Type := {
  transports : list string;
  autoConnect : bool;
  reconnection : bool;
  reconnectionAttempts : Z;
  reconnectionDelay : Z
}.

(** A connection object returned by [io]. [closed] is set by its
    [disconnect()] method: until then the library keeps the connection up,
    or keeps trying to. *)
Record Socket : Type := {
  io_url : value;
  io_opts : IoOptions;
  connected : bool;
  closed : bool;
  listeners : list (string * listener);
  emitted : list (string * value)
}.

Inductive logged : Type :=
| Log (text : string) (args : list value)
| LogError (text : string) (err : thrown).

Record World : Type := {
  socket : option nat;               (* [let socket = null], a reference *)
  sockets : list Socket;             (* every object [io] has returned *)
  requests : list request;           (* every request handed to axios *)
  console : list logged;
  calls : list (callback * list value);
  backend : Backend;
  meta_env : obj value               (* [import.meta.env] *)
}.

Definition with_socket (h : option nat) (w : World) : World :=
  {| socket := h; sockets := sockets w; requests := requests w;
     console := console w; calls := calls w; backend := backend w;
     meta_env := meta_env w |}.

Definition with_sockets (l : list Socket) (w : World) : World :=
  {| socket := socket w; sockets := l; requests := requests w;
     console := console w; calls := calls w; backend := backend w;
     meta_env := meta_env w |}.

Definition with_requests (l : list request) (w : World) : World :=
  {| socket := socket w; sockets := sockets w; requests := l;
     console := console w; calls := calls w; backend := backend w;
     meta_env := meta_env w |}.

Definition with_console (l : list logged) (w : World) : World :=
  {| socket := socket w; sockets := sockets w; requests := requests w;
     console := l; calls := calls w; backend := backend w;
     meta_env := meta_env w |}.

Definition with_calls (l : list (callback * list value)) (w : World) : World :=
  {| socket := socket w; sockets := sockets w; requests := requests w;
     console := console w; calls := l; backend := backend w;
     meta_env := meta_env w |}.

(** ** Computations *)

Definition M (A : Type) : Type := World -> (A + thrown) * World.

#[local] Instance M_ret : MRet M := fun A a w => (inl a, w).

#[local] Instance M_bind : MBind M := fun A B f m w =>
  match m w with
  | (inl a, w') => f a w'
  | (inr e, w') => (inr e, w')
  end.

Definition throw {A} (e : thrown) : M A := fun w => (inr e, w).

(** [try { body } catch (error) { handler }] *)
Definition try_catch {A} (body : M A) (handler : thrown -> M A) : M A := fun w =>
  match body w with
  | (inl a, w') => (inl a, w')
  | (inr e, w') => handler e w'
  end.

(** [for (const x of l) { body }] *)
Fixpoint for_of {A} (l : list A) (body : A -> M unit) : M unit :=
  match l with
  | [] => mret tt
  | x :: l' => body x ;; for_of l' body
  end.

Definition console_log (text : string) (args : list value) : M unit := fun w =>
  (inl tt, with_console (console w ++ [Log text args]) w).

Definition console_error (text : string) (err : thrown) : M unit := fun w =>
  (inl tt, with_console (console w ++ [LogError text err]) w).

(** [f(...args)] for a function of the caller. *)
Definition call (f : callback) (args : list value) : M unit := fun w =>
  (inl tt, with_calls (calls w ++ [(f, args)]) w).

(** [if (callbacks.f) { callbacks.f(...args) }] *)
Definition call_if (f : option callback) (args : list value) : M unit :=
  match f with
  | Some g => call g args
  | None => mret tt
  end.

(** *** axios *)

Definition http (r : request) : M response := fun w =>
  (backend w (requests w) r, with_requests (requests w ++ [r]) w).

Definition get_request (c : client) (url : string) (params : obj value) : request :=
  {| req_client := c; req_method := GET; req_url := url;
     req_data := VUndefined; req_params := params |}.

Definition post_request (c : client) (url : string) (body : value) : request :=
  {| req_client := c; req_method := POST; req_url := url;
     req_data := body; req_params := [] |}.

Definition axios_get (c : client) (url : string) (params : obj value) : M response :=
  http (get_request c url params).

Definition axios_post (c : client) (url : string) (body : value) : M response :=
  http (post_request c url body).

(** *** socket.io-client *)

Definition new_socket (url : value) (opts : IoOptions) : Socket :=
  {| io_url := url; io_opts := opts; connected := false; closed := false;
     listeners := []; emitted := [] |}.

(** [io(url, opts)]: a new connection object; it is not connected yet, the
    library connects it later ([Transport_up] below). *)
Definition io (url : value) (opts : IoOptions) : M nat := fun w =>
  (inl (length (sockets w)), with_sockets (sockets w ++ [new_socket url opts]) w).

Definition update_socket (s : nat) (f : Socket -> Socket) : M unit := fun w =>
  (inl tt, with_sockets (alter f s (sockets w)) w).

Definition add_listener (ev : string) (l : listener) (o : Socket) : Socket :=
  {| io_url := io_url o; io_opts := io_opts o; connected := connected o;
     closed := closed o; listeners := listeners o ++ [(ev, l)];
     emitted := emitted o |}.

Definition add_emitted (ev : string) (arg : value) (o : Socket) : Socket :=
  {| io_url := io_url o; io_opts := io_opts o; connected := connected o;
     closed := closed o; listeners := listeners o;
     emitted := emitted o ++ [(ev, arg)] |}.

Definition set_connected (b : bool) (o : Socket) : Socket :=
  {| io_url := io_url o; io_opts := io_opts o; connected := b;
     closed := closed o; listeners := listeners o; emitted := emitted o |}.

Definition set_closed (o : Socket) : Socket :=
  {| io_url := io_url o; io_opts := io_opts o; connected := false;
     closed := true; listeners := listeners o; emitted := emitted o |}.

(** [s.on(ev, l)] and [s.emit(ev, arg)] on the object [s]. *)
Definition sock_on (s : nat) (ev : string) (l : listener) : M unit :=
  update_socket s (add_listener ev l).

Definition sock_emit (s : nat) (ev : string) (arg : value) : M unit :=
  update_socket s (add_emitted ev arg).

(** *** The module variable [socket] *)

Definition get_socket : M (option nat) := fun w => (inl (socket w), w).

Definition set_socket (h : option nat) : M unit := fun w =>
  (inl tt, with_socket h w).

(** [socket.] for a member access: a TypeError on [null]. *)
Definition the_socket : M nat := fun w =>
  match socket w with
  | Some s => (inl s, w)
  | None => (inr (TypeError "Cannot read properties of null"), w)
  end.

(** [socket?.connected] *)
Definition is_connected (w : World) : bool :=
  match socket w with
  | Some s =>
      match sockets w !! s with
      | Some o => connected o
      | None => false
      end
  | None => false
  end.

Definition socket_connected : M bool := fun w => (inl (is_connected w), w).

Definition socket_on (ev : string) (l : listener) : M unit :=
  s ← the_socket; sock_on s ev l.

Definition socket_emit (ev : string) (arg : value) : M unit :=
  s ← the_socket; sock_emit s ev arg.

(** The bodies of the listeners. [socket] in the connect listener is the
    module variable, read when the event fires. *)
Definition run_listener (l : listener) (arg : value) : M unit :=
  match l with
  | OnConnect customerId callbacks =>
      console_log "🔌 Connected to MyEzz real-time server" [] ;;
      socket_emit "authenticate"
        (VObj [("type", VStr "customer"); ("id", customerId)]) ;;
      socket_emit "customer:join" customerId ;;
      call_if (onConnect callbacks) []
  | OnDisconnect callbacks =>
      console_log "❌ Disconnected from real-time server" [] ;;
      call_if (onDisconnect callbacks) []
  | OnAuthenticated =>
      console_log "✅ Authenticated with real-time server" [arg]
  | OnOrderAccepted callbacks =>
      console_log "📦 Order accepted:" [arg] ;;
      call_if (onOrderAccepted callbacks) [arg]
  | OnOrderRejected callbacks =>
      console_log "❌ Order rejected:" [arg] ;;
      call_if (onOrderRejected callbacks) [arg]
  | OnOrderStatusUpdated callbacks =>
      console_log "📋 Order status updated:" [arg] ;;
      call_if (onStatusUpdate callbacks) [arg]
  | OnOrderUpdated callbacks =>
      console_log "📦 Order updated:" [arg] ;;
      call_if (onOrderUpdate callbacks) [arg]
  | OnRiderLocation callbacks =>
      console_log "🛵 Rider location update:" [arg] ;;
      call_if (onRiderLocation callbacks) [arg]
  end.

(** The library delivers the event [ev] of the object [s] to the listeners
    bound to it, in the order they were bound. *)
Definition fire (s : nat) (ev : string) (arg : value) : M unit := fun w =>
  match sockets w !! s with
  | Some o =>
      for_of (filter (fun el => el.1 = ev) (listeners o))
             (fun el => run_listener el.2 arg) w
  | None => (inl tt, w)
  end.

(** [s.disconnect()]: the object is closed for good; if it was connected its
    disconnect listeners run before the call returns. *)
Definition sock_disconnect (s : nat) : M unit := fun w =>
  match sockets w !! s with
  | Some o =>
      if connected o
      then (update_socket s set_closed ;;
            fire s "disconnect" (VStr "io client disconnect")) w
      else update_socket s set_closed w
  | None => (inl tt, w)
  end.

(** ** The real-time channel (unifiedOrderService.js) *)

Definition WEBSOCKET_URL (w : World) : value :=
  js_or (obj_get (meta_env w) "VITE_WEBSOCKET_URL") (VStr "http://localhost:3001").

Definition realtime_options : IoOptions :=
  {| transports := ["websocket"; "polling"];
     autoConnect := true;
     reconnection := true;
     reconnectionAttempts := 5;
     reconnectionDelay := 1000 |}.

Definition initializeRealtimeConnection
    (customerId : value) (callbacks : Callbacks) : M (option nat) :=
  c ← socket_connected;
  if c : bool then get_socket
  else
    url ← (fun w => (inl (WEBSOCKET_URL w), w));
    s ← io url realtime_options;
    set_socket (Some s) ;;
    socket_on "connect" (OnConnect customerId callbacks) ;;
    socket_on "disconnect" (OnDisconnect callbacks) ;;
    socket_on "authenticated" OnAuthenticated ;;
    socket_on "order_accepted" (OnOrderAccepted callbacks) ;;
    socket_on "order_rejected" (OnOrderRejected callbacks) ;;
    socket_on "order_status_updated" (OnOrderStatusUpdated callbacks) ;;
    socket_on "order_updated" (OnOrderUpdated callbacks) ;;
    socket_on "rider_location" (OnRiderLocation callbacks) ;;
    get_socket.

Definition subscribeToOrder (orderId : value) : M unit :=
  c ← socket_connected;
  if c : bool then
    socket_emit "order:subscribe" orderId ;;
    socket_emit "customer:track_order" orderId ;;
    console_log ("👁️ Subscribed to order tracking: " +:+ to_string orderId) []
  else mret tt.

Definition unsubscribeFromOrder (orderId : value) : M unit :=
  c ← socket_connected;
  if c : bool then
    socket_emit "order:unsubscribe" orderId ;;
    console_log ("👁️ Unsubscribed from order: " +:+ to_string orderId) []
  else mret tt.

Definition disconnectRealtime : M unit :=
  h ← get_socket;
  match h with
  | Some s => sock_disconnect s ;; set_socket None
  | None => mret tt
  end.

(** *** Histories

    What can happen to the channel: the application calls one of the four
    exported functions, or the library reports on a connection object. *)
Inductive event : Type :=
| Call_initializeRealtimeConnection (customerId : value) (callbacks : Callbacks)
| Call_subscribeToOrder (orderId : value)
| Call_unsubscribeFromOrder (orderId : value)
| Call_disconnectRealtime
| Transport_up (s : nat)
| Transport_down (s : nat)
| Server_event (s : nat) (name : string) (arg : value).

(** The library connects only an object that is neither connected nor
    closed, and delivers events only on a connected one; the server cannot
    send the events the library reserves. *)
Definition library_event (s : nat) (ready : Socket -> bool) (m : M unit) : M unit :=
  fun w =>
    match sockets w !! s with
    | Some o => if ready o then m w else (inl tt, w)
    | None => (inl tt, w)
    end.

Definition step (e : event) : M unit :=
  match e with
  | Call_initializeRealtimeConnection customerId callbacks =>
      initializeRealtimeConnection customerId callbacks ;; mret tt
  | Call_subscribeToOrder orderId => subscribeToOrder orderId
  | Call_unsubscribeFromOrder orderId => unsubscribeFromOrder orderId
  | Call_disconnectRealtime => disconnectRealtime
  | Transport_up s =>
      library_event s (fun o => negb (connected o) && negb (closed o))
        (update_socket s (set_connected true) ;; fire s "connect" VUndefined)
  | Transport_down s =>
      library_event s connected
        (update_socket s (set_connected false) ;;
         fire s "disconnect" (VStr "transport close"))
  | Server_event s name arg =>
      library_event s
        (fun o => connected o
                  && negb (bool_decide (name ∈ ["connect"; "connect_error"; "disconnect"])))
        (fire s name arg)
  end.

(** A history runs event after event; an exception that escapes an event
    leaves the world as it was when thrown. *)
Definition run (es : list event) (w : World) : World :=
  foldl (fun w e => (step e w).2) w es.

(** The world when the module has just been loaded. *)
Definition loaded (b : Backend) (env : obj value) : World :=
  {| socket := None; sockets := []; requests := []; console := [];
     calls := []; backend := b; meta_env := env |}.

(** ** riderService.js *)

(** A pure step that may throw, run as a computation. *)
Definition lift {A} (r : A + thrown) : M A := fun w => (r, w).

(** [v.k] for the property names this code reads off a response ([success],
    [data], [order], [currentStatus], [timeline]): no built-in prototype
    defines them, so only a plain object can hold one. *)
Definition get_prop (v : value) (k : string) : value + thrown :=
  match v with
  | VUndefined | VNull =>
      inr (TypeError ("Cannot read properties of " +:+ to_string v))
  | VObj props => inl (obj_get props k)
  | _ => inl VUndefined
  end.

(** [v.startsWith(p)]: only a string has the method. *)
Definition startsWith (v : value) (p : string) : bool + thrown :=
  match v with
  | VStr s => inl (String.prefix p s)
  | VUndefined | VNull =>
      inr (TypeError ("Cannot read properties of " +:+ to_string v))
  | _ => inr (TypeError "orderId.startsWith is not a function")
  end.

Definition submitOrderToRider (orderData : value) : M value :=
  response ← axios_post riderApiClient "/api/orders" orderData;
  mret (data response).

Definition getOrderStatus (orderId : value) : M value :=
  try_catch
    (mye ← lift (startsWith orderId "MYE-");
     tracked ←
       (if mye : bool then
          response ← axios_get unifiedApiClient
                       ("/orders/" +:+ to_string orderId +:+ "/track") [];
          success ← lift (get_prop (data response) "success");
          if truthy success then
            tracking ← lift (get_prop (data response) "data");
            order ← lift (get_prop tracking "order");
            currentStatus ← lift (get_prop tracking "currentStatus");
            timeline ← lift (get_prop tracking "timeline");
            mret (Some (VObj (obj_set (obj_set (spread order)
                                         "status" currentStatus)
                                "timeline" timeline)))
          else mret None
        else mret None);
     match tracked with
     | Some result => mret result
     | None =>
         response ← axios_get riderApiClient
                      ("/api/orders/" +:+ to_string orderId) [];
         mret (data response)
     end)
    (fun error =>
       console_error "Error fetching order status:" error ;;
       throw error).

Definition getAvailableOrders : M value :=
  response ← axios_get riderApiClient "/api/orders/available" [];
  mret (data response).

(** ** Orders (unifiedOrderService.js) *)

Record CartItem : Type := {
  item_restaurantId : value;
  item_vendorId : value;
  item_vendor : value;
  item_restaurantName : value;
  item_name : value;
  item_quantity : value;
  item_price : value;
  item_isVeg : value;
  item_jain : value;
  item_portion : value;
  item_notes : value
}.

Record CustomerInfo : Type := {
  userId : value;
  fullName : value;
  name : value;
  phoneNumber : value;
  phone : value;
  emailId : value;
  email : value;
  fullAddress : value;
  address : value;
  longitude : value;
  latitude : value;
  notes : value
}.

Record OrderData : Type := {
  customerInfo : CustomerInfo;
  cart : list CartItem;
  subtotal : value;
  deliveryFee : value;
  platformFee : value;
  total : value;
  paymentMethod : value;
  paymentStatus : value
}.

(** [item.restaurantId || item.vendorId || '1'], as the property key it is
    used for. *)
Definition restaurant_key (item : CartItem) : string :=
  to_string (js_or (js_or (item_restaurantId item) (item_vendorId item)) (VStr "1")).

(** One round of the [reduce] callback. The accumulator is an object
    literal: [acc[restaurantId]] also sees what it inherits, and what it
    inherits has no [push]. *)
Definition group_step (acc : obj (list CartItem) + thrown) (item : CartItem)
    : obj (list CartItem) + thrown :=
  match acc with
  | inr e => inr e
  | inl acc =>
      let restaurantId := restaurant_key item in
      match own_get acc restaurantId with
      | Some items => inl (obj_set acc restaurantId (items ++ [item]))
      | None =>
          match object_prototype restaurantId with
          | Some _ => inr (TypeError "acc[restaurantId].push is not a function")
          | None => inl (obj_set acc restaurantId [item])
          end
      end
  end.

Definition groupItemsByRestaurant (cart : list CartItem)
    : obj (list CartItem) + thrown :=
  foldl group_step (inl []) cart.

(** [items[0]?.vendor || items[0]?.restaurantName || 'Restaurant'] *)
Definition restaurant_name (items : list CartItem) : value :=
  match items with
  | [] => VStr "Restaurant"
  | first :: _ =>
      js_or (js_or (item_vendor first) (item_restaurantName first)) (VStr "Restaurant")
  end.

(** The fields both payloads start with, [customerId] to [restaurantName]. *)
Definition payload_head (c : CustomerInfo) (restaurantId : string)
    (items : list CartItem) : obj value :=
  [ ("customerId", js_or (userId c) VNull);
    ("customerName", js_or (fullName c) (name c));
    ("customerPhone", js_or (phoneNumber c) (phone c));
    ("customerEmail", js_or (emailId c) (email c));
    ("deliveryAddress", js_or (fullAddress c) (address c));
    ("deliveryLocation",
       VObj [ ("type", VStr "Point");
              ("coordinates",
                 VArr [ js_or (longitude c) (VNum (num_lit 0));
                        js_or (latitude c) (VNum (num_lit 0)) ]) ]);
    ("restaurantId", js_or (VNum (num_parseInt restaurantId)) (VNum (num_lit 1)));
    ("restaurantName", restaurant_name items) ].

(** [v === false] and [v === 'text'] *)
Definition is_false (v : value) : bool :=
  match v with VBool false => true | _ => false end.

Definition is_string (text : string) (v : value) : bool :=
  match v with VStr s => bool_decide (s = text) | _ => false end.

(** The fields an item is sent with, [name] to [portion]. *)
Definition item_fields (item : CartItem) : obj value :=
  [ ("name", item_name item);
    ("quantity", item_quantity item);
    ("price", item_price item);
    ("isVeg", VBool (negb (is_false (item_isVeg item))));
    ("jain", js_or (item_jain item) (VBool false));
    ("portion", js_or (item_portion item) VNull) ].

Definition payment_method (paymentMethod : value) : value :=
  if is_string "cod" paymentMethod
  then VStr "cash_on_delivery" else VStr "online".

(** The payload of the single-restaurant branch. *)
Definition single_payload (o : OrderData) (restaurantId : string)
    (items : list CartItem) : value :=
  VObj (payload_head (customerInfo o) restaurantId items ++
        [ ("items",
             VArr ((fun item =>
                      VObj (item_fields item ++
                            [("notes", js_or (item_notes item) VNull)])) <$> items));
          ("subtotal", subtotal o);
          ("deliveryFee", deliveryFee o);
          ("platformFee", platformFee o);
          ("total", total o);
          ("paymentMethod", payment_method (paymentMethod o));
          ("paymentStatus", js_or (paymentStatus o) (VStr "pending"));
          ("notes", js_or (notes (customerInfo o)) VNull) ]).

(** [items.reduce((sum, item) => sum + (item.price * item.quantity), 0)] *)
Definition restaurantSubtotal (items : list CartItem) : value :=
  foldl (fun sum item => js_add sum (js_mul (item_price item) (item_quantity item)))
        (VNum (num_lit 0)) items.

Definition restaurantDeliveryFee : value := VNum (num_lit 30).

Definition restaurantTotal (o : OrderData) (items : list CartItem) : value :=
  js_add (js_add (restaurantSubtotal items) restaurantDeliveryFee) (platformFee o).

(** The payload of one round of the multi-restaurant loop. *)
Definition group_payload (o : OrderData) (restaurantId : string)
    (items : list CartItem) : value :=
  VObj (payload_head (customerInfo o) restaurantId items ++
        [ ("items", VArr ((fun item => VObj (item_fields item)) <$> items));
          ("subtotal", restaurantSubtotal items);
          ("deliveryFee", restaurantDeliveryFee);
          ("platformFee", platformFee o);
          ("total", restaurantTotal o items);
          ("paymentMethod", payment_method (paymentMethod o));
          ("paymentStatus", js_or (paymentStatus o) (VStr "pending")) ]).

(** The loop [for (const [restaurantId, items] of Object.entries(...))],
    with the local array [orders] it pushes to. *)
Fixpoint place_each (o : OrderData) (entries : list (string * list CartItem))
    (orders : list value) : M (list value) :=
  match entries with
  | [] => mret orders
  | (restaurantId, items) :: rest =>
      response ← axios_post unifiedApiClient "/orders"
                   (group_payload o restaurantId items);
      place_each o rest (orders ++ [data response])
  end.

Definition placeOrder (orderData : OrderData) : M value :=
  ordersByRestaurant ← lift (groupItemsByRestaurant (cart orderData));
  match Object_keys ordersByRestaurant with
  | [restaurantId] =>
      match own_get ordersByRestaurant restaurantId with
      | Some items =>
          response ← axios_post unifiedApiClient "/orders"
                       (single_payload orderData restaurantId items);
          mret (data response)
      | None => throw (TypeError "Cannot read properties of undefined")
      end
  | _ =>
      orders ← place_each orderData (Object_entries ordersByRestaurant) [];
      mret (VObj [ ("success", VBool true);
                   ("data", VArr orders);
                   ("message",
                      VStr (pretty (length orders) +:+ " orders placed successfully")) ])
  end.

Definition getOrder (orderId : value) : M value :=
  response ← axios_get unifiedApiClient ("/orders/" +:+ to_string orderId) [];
  mret (data response).

Definition trackOrder (orderId : value) : M value :=
  response ← axios_get unifiedApiClient
               ("/orders/" +:+ to_string orderId +:+ "/track") [];
  mret (data response).

(** A default parameter value applies when the argument is [undefined]. *)
Definition or_default (arg dflt : value) : value :=
  match arg with VUndefined => dflt | _ => arg end.

Definition getCustomerOrders (customerId limit : value) : M value :=
  let limit := or_default limit (VNum (num_lit 20)) in
  response ← axios_get unifiedApiClient
               ("/customer/" +:+ to_string customerId +:+ "/orders")
               [("limit", limit)];
  mret (data response).

Definition cancelOrder (orderId reason : value) : M value :=
  let reason := or_default reason (VStr "Customer requested cancellation") in
  response ← axios_post unifiedApiClient
               ("/orders/" +:+ to_string orderId +:+ "/status")
               (VObj [("status", VStr "cancelled"); ("cancellation_reason", reason)]);
  mret (data response).

(** ** Vocabulary of the properties *)

(** A connection object the program opened, never closed, and no longer
    holds in [socket]. *)
Definition abandoned (w : World) (s : nat) : Prop :=
  exists o, sockets w !! s = Some o /\ closed o = false /\ socket w <> Some s.

Definition is_initialize (e : event) : bool :=
  match e with
  | Call_initializeRealtimeConnection _ _ => true
  | _ => false
  end.

(** The computation [m] leaves the observation [f] of the world as it is. *)
Definition preserves {A X} (f : World -> X) (m : M A) : Prop :=
  forall w, f (m w).2 = f w.

(** Two observations: the options of the connection objects, and what the
    module holds together with which objects are closed. *)
Definition options (w : World) : list IoOptions := io_opts <$> sockets w.

Definition holding (w : World) : option nat * list bool :=
  (socket w, closed <$> sockets w).

(** An update of a connection object that touches neither. *)
Definition gentle (g : Socket -> Socket) : Prop :=
  forall o, io_opts (g o) = io_opts o /\ closed (g o) = closed o.

(** The computation [m] creates at most [n] connection objects, all with
    [realtime_options], and leaves the options of the others as they are. *)
Definition creates_upto {A} (n : nat) (m : M A) : Prop :=
  forall w, exists k, k <= n /\
    options (m w).2 = options w ++ replicate k realtime_options.

(** Every open connection object is the one held in [socket]. *)
Definition single_connection (w : World) : Prop :=
  forall s, ~ abandoned w s.

(** A history in which [initializeRealtimeConnection] is only called while
    [socket] is null or holds a connected object. *)
Fixpoint disciplined (es : list event) (w : World) : Prop :=
  match es with
  | [] => True
  | e :: es' =>
      (is_initialize e = true -> socket w = None \/ is_connected w = true)
      /\ disciplined es' (step e w).2
  end.

(** No line on the console. *)
Definition quiet (e : thrown) : list logged := [].

(** What the catch block of [getOrderStatus] prints. *)
Definition status_error_line (e : thrown) : list logged :=
  [LogError "Error fetching order status:" e].

(** How [m] treats the rejection of a request. It only adds requests to
    those already made. Whenever one of them, the one at position [i], is
    rejected with [e], the outcome of [m] is a rejection with that same [e]
    and the request is the last one [m] makes. The console gains [logs e] if
    [m] ends rejecting with [e], and nothing if it ends well. *)
Definition propagates {A} (logs : thrown -> list logged) (m : M A) : Prop :=
  forall w,
    backend (m w).2 = backend w /\
    exists sent,
      requests (m w).2 = requests w ++ sent /\
      console (m w).2
      = console w ++ match (m w).1 with inr e => logs e | inl _ => [] end /\
      forall i r e,
        sent !! i = Some r ->
        backend w (requests w ++ take i sent) r = inr e ->
        (m w).1 = inr e /\ length sent = S i.

(** A property is present when it holds anything but [undefined]. *)
Definition present (v : value) : bool :=
  match v with VUndefined => false | _ => true end.

(** The group key in the words of the specification: the item's
    [restaurantId] if present, otherwise its [vendorId], otherwise ['1']. *)
Definition spec_restaurant_key (item : CartItem) : string :=
  if present (item_restaurantId item) then to_string (item_restaurantId item)
  else if present (item_vendorId item) then to_string (item_vendorId item)
  else "1".

(** The grouping in the words of the specification, at a cart: the cart is
    grouped, and every item is in the group whose key is its
    [spec_restaurant_key]. *)
Definition grouped_by_presence (cart : list CartItem) : Prop :=
  exists groups,
    groupItemsByRestaurant cart = inl groups
    /\ forall item, item ∈ cart ->
         exists items, (spec_restaurant_key item, items) ∈ groups /\ item ∈ items.

(** The sum, over the items of a group, of price times quantity. *)
Definition sum_price_times_quantity (items : list CartItem) : num :=
  foldl (fun sum item =>
           num_add sum (num_mul (to_number (item_price item))
                                (to_number (item_quantity item))))
        (num_lit 0) items.

(** The property [k] of an object sent or received. *)
Definition field (k : string) (v : value) : option value :=
  match v with
  | VObj props => own_get props k
  | _ => None
  end.

(** [o] with other values for the three amounts the caller supplies. *)
Definition with_amounts (o : OrderData) (subtotal' deliveryFee' total' : value)
    : OrderData :=
  {| customerInfo := customerInfo o; cart := cart o;
     subtotal := subtotal'; deliveryFee := deliveryFee';
     platformFee := platformFee o; total := total';
     paymentMethod := paymentMethod o; paymentStatus := paymentStatus o |}.

(** One post per group, in the order [Object.entries] lists the groups. *)
Definition group_posts (o : OrderData) (groups : obj (list CartItem))
    : list request :=
  (fun entry => post_request unifiedApiClient "/orders"
                  (group_payload o entry.1 entry.2)) <$> Object_entries groups.

(** The reduce of [groupItemsByRestaurant], having gone through [seen]. *)
Definition grouped (seen : list CartItem) (acc : obj (list CartItem)) : Prop :=
  NoDup acc.*1
  /\ concat acc.*2 ≡ₚ seen
  /\ forall k, own_get acc k
              = match filter (fun item => restaurant_key item = k) seen with
                | [] => None
                | items => Some items
                end.

(** The eight listeners [initializeRealtimeConnection] binds, in the order
    it binds them. *)
Definition standard_listeners (customerId : value) (callbacks : Callbacks)
    : list (string * listener) :=
  [ ("connect", OnConnect customerId callbacks);
    ("disconnect", OnDisconnect callbacks);
    ("authenticated", OnAuthenticated);
    ("order_accepted", OnOrderAccepted callbacks);
    ("order_rejected", OnOrderRejected callbacks);
    ("order_status_updated", OnOrderStatusUpdated callbacks);
    ("order_updated", OnOrderUpdated callbacks);
    ("rider_location", OnRiderLocation callbacks) ].

(** Every connection object carries the eight listeners of one call. *)
Definition wired (w : World) : Prop :=
  Forall (fun o => exists customerId callbacks,
                     listeners o = standard_listeners customerId callbacks)
         (sockets w).

(** A connection object but for what it has emitted, and the channel but
    for what its objects have emitted. *)
Definition socket_shape (o : Socket)
    : value * IoOptions * bool * bool * list (string * listener) :=
  (io_url o, io_opts o, connected o, closed o, listeners o).

Definition shape (w : World)
    : option nat
      * list (value * IoOptions * bool * bool * list (string * listener)) :=
  (socket w, socket_shape <$> sockets w).

(** The world after a listener has logged [text] with [arg] and handed
    [arg] to the callback [f], if the caller supplied one. *)
Definition relayed (text : string) (f : option callback) (arg : value)
    (w : World) : World :=
  match f with
  | Some g =>
      with_calls (calls w ++ [(g, [arg])])
        (with_console (console w ++ [Log text [arg]]) w)
  | None => with_console (console w ++ [Log text [arg]]) w
  end.

(** The listeners of the connection objects. *)
Definition wiring (w : World) : list (list (string * listener)) :=
  listeners <$> sockets w.

(** The item objects a request carries. *)
Definition sent_items (r : request) : list value :=
  match field "items" (req_data r) with
  | Some (VArr items) => items
  | _ => []
  end.

(** What [push] on an inherited property throws. *)
Definition push_error : thrown :=
  TypeError "acc[restaurantId].push is not a function".

(** ** Inputs to run the model on *)

Definition sample_callbacks : Callbacks :=
  {| onConnect := Some "handleConnect"; onDisconnect := Some "handleDisconnect";
     onOrderAccepted := None; onOrderRejected := None;
     onStatusUpdate := Some "handleStatus"; onOrderUpdate := None;
     onRiderLocation := None |}.

Definition ok_backend : Backend := fun _ _ =>
  inl {| data := VObj [("success", VBool true)] |}.

(** Both backends answer every request, the unified one with
    [success: false]. *)
Definition untracked_backend : Backend := fun _ r =>
  match req_client r with
  | unifiedApiClient => inl {| data := VObj [("success", VBool false)] |}
  | riderApiClient => inl {| data := VObj [("status", VStr "picked_up")] |}
  end.

(** The second request is rejected, the others are answered. *)
Definition second_rejected : Backend := fun earlier _ =>
  if bool_decide (length earlier = 1)
  then inr (Thrown (VStr "Network Error"))
  else inl {| data := VObj [("success", VBool true)] |}.

Definition sample_item (restaurantId vendorId : value) (price quantity : Z)
    : CartItem :=
  {| item_restaurantId := restaurantId; item_vendorId := vendorId;
     item_vendor := VUndefined; item_restaurantName := VStr "Spice Hub";
     item_name := VStr "Thali"; item_quantity := VNum (num_lit quantity);
     item_price := VNum (num_lit price); item_isVeg := VBool true;
     item_jain := VUndefined; item_portion := VUndefined;
     item_notes := VUndefined |}.

Definition sample_customer : CustomerInfo :=
  {| userId := VStr "u1"; fullName := VStr "Asha"; name := VUndefined;
     phoneNumber := VStr "5550100"; phone := VUndefined;
     emailId := VUndefined; email := VUndefined;
     fullAddress := VStr "12 Lake Road"; address := VUndefined;
     longitude := VUndefined; latitude := VUndefined; notes := VUndefined |}.

(** Three items from the restaurants 10, ['2'] and 10 again. *)
Definition sample_cart : list CartItem :=
  [ sample_item (VNum (num_lit 10)) VUndefined 120 2;
    sample_item (VStr "2") VUndefined 80 1;
    sample_item (VNum (num_lit 10)) VUndefined 40 3 ].

Definition sample_order : OrderData :=
  {| customerInfo := sample_customer; cart := sample_cart;
     subtotal := VNum (num_lit 440); deliveryFee := VNum (num_lit 30);
     platformFee := VNum (num_lit 5); total := VNum (num_lit 475);
     paymentMethod := VStr "cod"; paymentStatus := VUndefined |}.

(** An item of restaurant 0 from vendor 7. *)
Definition sample_item_zero : CartItem :=
  sample_item (VNum (num_lit 0)) (VNum (num_lit 7)) 120 1.

(** The world after one [initializeRealtimeConnection] whose connection
    the library has brought up. *)
Definition sample_connected : World :=
  run [Call_initializeRealtimeConnection (VStr "u1") sample_callbacks; Transport_up 0]
      (loaded ok_backend []).

(** The same before the library has connected. *)
Definition sample_connecting : World :=
  run [Call_initializeRealtimeConnection (VStr "u1") sample_callbacks]
      (loaded ok_backend []).

(** An item whose restaurant id is a name that objects inherit. *)
Definition sample_item_inherited : CartItem :=
  sample_item (VStr "constructor") VUndefined 60 1.

(** Two items of restaurant 10, one naming it by number, one by string. *)
Definition sample_cart_one_restaurant : list CartItem :=
  [ sample_item (VNum (num_lit 10)) VUndefined 120 2;
    sample_item VUndefined (VStr "10") 40 3 ].

(** The sample order with another cart. *)
Definition sample_order_of (items : list CartItem) : OrderData :=
  {| customerInfo := sample_customer; cart := items;
     subtotal := VNum (num_lit 360); deliveryFee := VNum (num_lit 30);
     platformFee := VNum (num_lit 5); total := VNum (num_lit 395);
     paymentMethod := VStr "cod"; paymentStatus := VUndefined |}.

(** The unified backend tracks every order: it is being prepared, whatever
    status the stored order has. *)
Definition tracking_backend : Backend := fun _ r =>
  match req_client r with
  | unifiedApiClient =>
      inl {| data :=
               VObj [ ("success", VBool true);
                      ("data",
                         VObj [ ("order",
                                   VObj [ ("orderId", VStr "MYE-7");
                                          ("status", VStr "pending_restaurant") ]);
                                ("currentStatus", VStr "preparing");
                                ("timeline", VArr []) ]) ] |}
  | riderApiClient => inl {| data := VObj [("status", VStr "picked_up")] |}
  end.

(** The unified backend claims success and sends no data. *)
Definition hollow_backend : Backend := fun _ r =>
  match req_client r with
  | unifiedApiClient => inl {| data := VObj [("success", VBool true)] |}
  | riderApiClient => inl {| data := VObj [("status", VStr "picked_up")] |}
  end.

(** The world after two calls of [initializeRealtimeConnection] in a row. *)
Definition sample_twice : World :=
  run [ Call_initializeRealtimeConnection (VStr "u1") sample_callbacks;
        Call_initializeRealtimeConnection (VStr "u1") sample_callbacks ]
      (loaded ok_backend []).

(** * Properties *)

(** ** Objects *)

Lemma own_get_None {A} (o : obj A) (k : string) :
  own_get o k = None <-> k ∉ o.*1.
Proof.
  induction o as [|[k' v] o IH]; simpl.
  - split; [intros _; apply not_elem_of_nil | done].
  - rewrite not_elem_of_cons. case_decide as Hk; simpl.
    + split; [discriminate | intros [Hne _]; by destruct Hne].
    + rewrite IH. split; [by split | by intros [_ ?]].
Qed.

(** ** formatOrderStatus *)

(** C6. Each of the nine status codes is mapped to its fixed record of
    label, color and icon; the function reads nothing but its argument. *)
Theorem formatOrderStatus_table :
  formatOrderStatus (VStr "pending_restaurant")
    = VObj [("label", VStr "Waiting for Restaurant"); ("color", VStr "yellow");
            ("icon", VStr "⏳")]
  /\ formatOrderStatus (VStr "preparing")
    = VObj [("label", VStr "Being Prepared"); ("color", VStr "blue");
            ("icon", VStr "👨‍🍳")]
  /\ formatOrderStatus (VStr "ready_for_pickup")
    = VObj [("label", VStr "Ready for Pickup"); ("color", VStr "purple");
            ("icon", VStr "📦")]
  /\ formatOrderStatus (VStr "rider_assigned")
    = VObj [("label", VStr "Rider Assigned"); ("color", VStr "indigo");
            ("icon", VStr "🛵")]
  /\ formatOrderStatus (VStr "picked_up")
    = VObj [("label", VStr "Picked Up"); ("color", VStr "cyan");
            ("icon", VStr "✅")]
  /\ formatOrderStatus (VStr "out_for_delivery")
    = VObj [("label", VStr "Out for Delivery"); ("color", VStr "orange");
            ("icon", VStr "🚀")]
  /\ formatOrderStatus (VStr "delivered")
    = VObj [("label", VStr "Delivered"); ("color", VStr "green");
            ("icon", VStr "🎉")]
  /\ formatOrderStatus (VStr "rejected")
    = VObj [("label", VStr "Rejected"); ("color", VStr "red");
            ("icon", VStr "❌")]
  /\ formatOrderStatus (VStr "cancelled")
    = VObj [("label", VStr "Cancelled"); ("color", VStr "gray");
            ("icon", VStr "🚫")].
Proof. repeat split. Qed.

(** A status that is neither a key of the table nor a name every object
    inherits is echoed back as the label of a gray record. *)
Lemma formatOrderStatus_unknown (s : string) :
  s ∉ statusMap.*1 -> s ∉ object_prototype_props.*1 ->
  formatOrderStatus (VStr s)
  = VObj [("label", VStr s); ("color", VStr "gray"); ("icon", VStr "❓")].
Proof.
  intros Hmap Hproto. unfold formatOrderStatus, obj_get, object_prototype.
  apply own_get_None in Hmap, Hproto. simpl to_string.
  rewrite Hmap, Hproto. reflexivity.
Qed.

(** C8, at the status ['constructor']: it is not a key of the table, yet the
    lookup finds the inherited [Object] function, which is truthy, so that is
    what comes back, not the gray record. *)
Theorem formatOrderStatus_inherited_name :
  ("constructor" ∉ statusMap.*1)
  /\ formatOrderStatus (VStr "constructor") = VNative (NativeFunction "Object")
  /\ formatOrderStatus (VStr "constructor")
     <> VObj [("label", VStr "constructor"); ("color", VStr "gray");
              ("icon", VStr "❓")].
Proof.
  split; [|split]; [|reflexivity|discriminate].
  apply own_get_None. reflexivity.
Qed.

(** ** The real-time channel *)

(** C2. When [socket] holds a connected object,
    [initializeRealtimeConnection] returns that object and the world is what
    it was: no object is created, no listener is bound. *)
Theorem initialize_connected_noop customerId callbacks (w : World) s o :
  socket w = Some s ->
  sockets w !! s = Some o ->
  connected o = true ->
  initializeRealtimeConnection customerId callbacks w = (inl (Some s), w).
Proof.
  intros Hs Ho Hc.
  unfold initializeRealtimeConnection, socket_connected, mbind, M_bind.
  unfold is_connected. rewrite Hs, Ho, Hc. unfold get_socket. by rewrite Hs.
Qed.

(** C9. With [socket] null, or holding an object that is not connected,
    [subscribeToOrder] and [unsubscribeFromOrder] return normally and the
    world is what it was: nothing is emitted, nothing is logged. *)
Theorem subscribe_unsubscribe_noop orderId (w : World) :
  socket w = None
  \/ (exists s o, socket w = Some s /\ sockets w !! s = Some o /\ connected o = false) ->
  subscribeToOrder orderId w = (inl tt, w)
  /\ unsubscribeFromOrder orderId w = (inl tt, w).
Proof.
  intros H.
  assert (is_connected w = false) as Hc.
  { unfold is_connected. destruct H as [-> | (s & o & -> & -> & ->)]; done. }
  unfold subscribeToOrder, unsubscribeFromOrder, socket_connected, mbind, M_bind.
  by rewrite Hc.
Qed.

(** C1, at two calls of [initializeRealtimeConnection] in a row. The first
    object is not connected yet when the second call tests
    [socket?.connected], so a second object is created and takes its place in
    [socket]; the first was never closed and nothing holds it any more. *)
Theorem second_initialize_abandons_first customerId callbacks b env :
  let w := run [ Call_initializeRealtimeConnection customerId callbacks;
                 Call_initializeRealtimeConnection customerId callbacks ]
               (loaded b env) in
  socket w = Some 1 /\ length (sockets w) = 2 /\ abandoned w 0.
Proof.
  cbv zeta. split; [reflexivity|]. split; [reflexivity|].
  eexists. split; [reflexivity|]. split; [reflexivity | discriminate].
Qed.

(** *** What the computations leave alone *)

Lemma preserves_ret {A X} (f : World -> X) (a : A) : preserves f (mret a).
Proof. done. Qed.

Lemma preserves_throw {A X} (f : World -> X) (e : thrown) :
  preserves f (throw (A:=A) e).
Proof. done. Qed.

Lemma preserves_bind {A B X} (f : World -> X) (m : M A) (k : A -> M B) :
  preserves f m -> (forall a, preserves f (k a)) -> preserves f (m ≫= k).
Proof.
  intros Hm Hk w. unfold mbind, M_bind.
  specialize (Hm w). destruct (m w) as [[a|e] w']; simpl in *; [|done].
  by rewrite Hk.
Qed.

Lemma preserves_for_of {A X} (f : World -> X) (l : list A) (body : A -> M unit) :
  (forall x, preserves f (body x)) -> preserves f (for_of l body).
Proof.
  intros Hb. induction l as [|x l IH]; simpl.
  - apply preserves_ret.
  - apply preserves_bind; auto.
Qed.

Section Frame.

(** An observation that reads only [socket] and [sockets], and does not see
    a gentle update. *)
Context {X : Type} (f : World -> X).
Hypothesis f_reads :
  forall w w', socket w' = socket w -> sockets w' = sockets w -> f w' = f w.
Hypothesis f_gentle :
  forall g s w, gentle g -> f (with_sockets (alter g s (sockets w)) w) = f w.

Lemma preserves_console_log t a : preserves f (console_log t a).
Proof using f_reads. intros w. by apply f_reads. Qed.

Lemma preserves_call g a : preserves f (call g a).
Proof using f_reads. intros w. by apply f_reads. Qed.

Lemma preserves_call_if g a : preserves f (call_if g a).
Proof using f_reads. destruct g; [apply preserves_call | apply preserves_ret]. Qed.

Lemma preserves_the_socket : preserves f the_socket.
Proof using f_reads. intros w. unfold the_socket. by destruct (socket w). Qed.

Lemma preserves_get_socket : preserves f get_socket.
Proof using f_reads. done. Qed.

Lemma preserves_socket_connected : preserves f socket_connected.
Proof using f_reads. done. Qed.

Lemma preserves_update s g : gentle g -> preserves f (update_socket s g).
Proof using f_gentle. intros Hg w. by apply f_gentle. Qed.

Lemma preserves_socket_on ev l : preserves f (socket_on ev l).
Proof using f_reads f_gentle.
  apply preserves_bind; [apply preserves_the_socket|].
  intros s. by apply preserves_update.
Qed.

Lemma preserves_socket_emit ev a : preserves f (socket_emit ev a).
Proof using f_reads f_gentle.
  apply preserves_bind; [apply preserves_the_socket|].
  intros s. by apply preserves_update.
Qed.

Lemma preserves_run_listener l a : preserves f (run_listener l a).
Proof using f_reads f_gentle.
  destruct l; simpl;
    repeat first [ apply preserves_bind; [|intros _]
                 | apply preserves_console_log
                 | apply preserves_socket_emit
                 | apply preserves_call_if ].
Qed.

Lemma preserves_fire s ev a : preserves f (fire s ev a).
Proof using f_reads f_gentle.
  intros w. unfold fire. destruct (sockets w !! s); [|done].
  apply preserves_for_of. intros el. apply preserves_run_listener.
Qed.

Lemma preserves_library_event s ready m :
  preserves f m -> preserves f (library_event s ready m).
Proof.
  intros Hm w. unfold library_event. destruct (sockets w !! s) as [o|]; [|done].
  destruct (ready o); [apply Hm | done].
Qed.

Lemma preserves_subscribeToOrder orderId : preserves f (subscribeToOrder orderId).
Proof using f_reads f_gentle.
  unfold subscribeToOrder. apply preserves_bind; [apply preserves_socket_connected|].
  intros []; [|apply preserves_ret].
  repeat first [ apply preserves_bind; [|intros _]
               | apply preserves_socket_emit | apply preserves_console_log ].
Qed.

Lemma preserves_unsubscribeFromOrder orderId :
  preserves f (unsubscribeFromOrder orderId).
Proof using f_reads f_gentle.
  unfold unsubscribeFromOrder. apply preserves_bind; [apply preserves_socket_connected|].
  intros []; [|apply preserves_ret].
  repeat first [ apply preserves_bind; [|intros _]
               | apply preserves_socket_emit | apply preserves_console_log ].
Qed.

(** Binding the eight listeners, the tail of [initializeRealtimeConnection]. *)
Lemma preserves_listeners customerId callbacks :
  preserves f
    (socket_on "connect" (OnConnect customerId callbacks) ;;
     socket_on "disconnect" (OnDisconnect callbacks) ;;
     socket_on "authenticated" OnAuthenticated ;;
     socket_on "order_accepted" (OnOrderAccepted callbacks) ;;
     socket_on "order_rejected" (OnOrderRejected callbacks) ;;
     socket_on "order_status_updated" (OnOrderStatusUpdated callbacks) ;;
     socket_on "order_updated" (OnOrderUpdated callbacks) ;;
     socket_on "rider_location" (OnRiderLocation callbacks) ;;
     get_socket).
Proof using f_reads f_gentle.
  repeat first [ apply preserves_bind; [|intros _]
               | apply preserves_socket_on | apply preserves_get_socket ].
Qed.

(** Subscribing, unsubscribing and what the library reports. *)
Lemma preserves_step e :
  is_initialize e = false -> e <> Call_disconnectRealtime -> preserves f (step e).
Proof using f_reads f_gentle.
  intros Hinit Hdisc. destruct e; simpl; try done.
  - apply preserves_subscribeToOrder.
  - apply preserves_unsubscribeFromOrder.
  - apply preserves_library_event, preserves_bind;
      [by apply preserves_update | intros _; apply preserves_fire].
  - apply preserves_library_event, preserves_bind;
      [by apply preserves_update | intros _; apply preserves_fire].
  - apply preserves_library_event, preserves_fire.
Qed.

End Frame.

(** *** The options of the connection objects *)

Lemma options_alter (g : Socket -> Socket) s (l : list Socket) :
  (forall o, io_opts (g o) = io_opts o) ->
  io_opts <$> alter g s l = io_opts <$> l.
Proof.
  intros Hg. revert s. induction l as [|o l IH]; intros [|s]; f_equal/=; auto.
Qed.

Lemma options_reads (w w' : World) :
  socket w' = socket w -> sockets w' = sockets w -> options w' = options w.
Proof. unfold options. by intros _ ->. Qed.

Lemma options_gentle g s (w : World) :
  gentle g -> options (with_sockets (alter g s (sockets w)) w) = options w.
Proof. intros Hg. apply options_alter. intros o. apply Hg. Qed.

Lemma options_sock_disconnect s : preserves options (sock_disconnect s).
Proof.
  assert (preserves options (update_socket s set_closed)) as Hclose.
  { intros w. by apply options_alter. }
  intros w. unfold sock_disconnect. destruct (sockets w !! s) as [o|]; [|done].
  destruct (connected o); [|apply Hclose].
  apply preserves_bind; [apply Hclose|].
  intros _. apply preserves_fire; [apply options_reads | apply options_gentle].
Qed.

Lemma options_disconnectRealtime : preserves options disconnectRealtime.
Proof.
  unfold disconnectRealtime. apply preserves_bind; [done|].
  intros [s|]; [|done].
  apply preserves_bind; [apply options_sock_disconnect | done].
Qed.

Lemma creates_preserved {A} n (m : M A) : preserves options m -> creates_upto n m.
Proof.
  intros Hm w. exists 0. split; [lia|]. rewrite Hm. simpl. by rewrite app_nil_r.
Qed.

Lemma creates_bind {A B} a b (m : M A) (k : A -> M B) :
  creates_upto a m -> (forall x, creates_upto b (k x)) ->
  creates_upto (a + b) (m ≫= k).
Proof.
  intros Hm Hk w. unfold mbind, M_bind.
  destruct (Hm w) as (i & Hi & Ei). destruct (m w) as [[x|e] w']; simpl in *.
  - destruct (Hk x w') as (j & Hj & Ej). exists (i + j). split; [lia|].
    rewrite Ej, Ei, replicate_add. by rewrite app_assoc.
  - exists i. split; [lia | done].
Qed.

Lemma creates_io url : creates_upto 1 (io url realtime_options).
Proof. intros w. exists 1. split; [lia|]. unfold options. simpl. by rewrite fmap_app. Qed.

Lemma creates_initialize customerId callbacks :
  creates_upto 1 (initializeRealtimeConnection customerId callbacks).
Proof.
  unfold initializeRealtimeConnection.
  apply (creates_bind 0 1); [by apply creates_preserved|].
  intros []; [by apply creates_preserved|].
  apply (creates_bind 0 1); [by apply creates_preserved|].
  intros url. apply (creates_bind 1 0); [apply creates_io|].
  intros s. apply creates_preserved, preserves_bind; [done|].
  intros _. apply preserves_listeners; [apply options_reads | apply options_gentle].
Qed.

Lemma creates_step e : creates_upto (if is_initialize e then 1 else 0) (step e).
Proof.
  destruct (is_initialize e) eqn:Hinit.
  - destruct e; try done. simpl.
    apply (creates_bind 1 0); [apply creates_initialize|].
    intros _. by apply creates_preserved.
  - apply creates_preserved. destruct e; try done.
    all: first [ apply options_disconnectRealtime
               | apply preserves_step;
                 [apply options_reads | apply options_gentle | done | done] ].
Qed.

Lemma run_options es w :
  exists k, k <= length (filter (fun e => is_initialize e = true) es) /\
    options (run es w) = options w ++ replicate k realtime_options.
Proof.
  revert w. induction es as [|e es IH]; intros w.
  - exists 0. split; [lia|]. simpl. by rewrite app_nil_r.
  - change (run (e :: es) w) with (run es (step e w).2).
    destruct (IH (step e w).2) as (j & Hj & Ej).
    destruct (creates_step e w) as (k & Hk & Ek).
    exists (k + j). split.
    + rewrite filter_cons. destruct (is_initialize e); simpl in *; lia.
    + rewrite Ej, Ek, replicate_add. by rewrite app_assoc.
Qed.

(** *** One connection at a time *)

Lemma closed_alter (g : Socket -> Socket) (h : bool -> bool) s (l : list Socket) :
  (forall o, closed (g o) = h (closed o)) ->
  closed <$> alter g s l = alter h s (closed <$> l).
Proof. intros Hg. apply list_fmap_alter, Forall_forall. auto. Qed.

Lemma alter_absent {A} (h : A -> A) s (l : list A) :
  l !! s = None -> alter h s l = l.
Proof.
  intros Hs. apply list_eq. intros i. rewrite list_lookup_alter.
  case_decide; subst; by rewrite ?Hs.
Qed.

Lemma alter_id {A} s (l : list A) : alter (fun x => x) s l = l.
Proof.
  apply list_eq. intros i. rewrite list_lookup_alter.
  case_decide; subst; by destruct (l !! _).
Qed.

Lemma holding_reads (w w' : World) :
  socket w' = socket w -> sockets w' = sockets w -> holding w' = holding w.
Proof. unfold holding. by intros -> ->. Qed.

Lemma holding_gentle g s (w : World) :
  gentle g -> holding (with_sockets (alter g s (sockets w)) w) = holding w.
Proof.
  intros Hg. unfold holding. simpl. f_equal.
  rewrite (closed_alter g (fun x => x)) by (intros o; apply Hg). apply alter_id.
Qed.

Lemma single_connection_flags (w : World) s :
  single_connection w ->
  (closed <$> sockets w) !! s = Some false -> socket w = Some s.
Proof.
  intros Hsingle Hs. rewrite list_lookup_fmap in Hs.
  destruct (sockets w !! s) as [o|] eqn:Ho; [|done]. injection Hs as Hs.
  destruct (decide (socket w = Some s)) as [|Hne]; [done|].
  destruct (Hsingle s). by exists o.
Qed.

Lemma flags_single_connection (w : World) :
  (forall s, (holding w).2 !! s = Some false -> (holding w).1 = Some s) ->
  single_connection w.
Proof.
  intros Hflags s (o & Ho & Hopen & Hne). apply Hne, Hflags.
  unfold holding. simpl. by rewrite list_lookup_fmap, Ho, <- Hopen.
Qed.

Lemma initialize_when_connected customerId callbacks (w : World) :
  is_connected w = true ->
  initializeRealtimeConnection customerId callbacks w = (inl (socket w), w).
Proof.
  intros Hc. unfold initializeRealtimeConnection, socket_connected, mbind, M_bind.
  by rewrite Hc.
Qed.

Lemma bind_inl {A B} (m : M A) (k : A -> M B) w a w' :
  m w = (inl a, w') -> (m ≫= k) w = k a w'.
Proof. intros Hm. unfold mbind, M_bind. by rewrite Hm. Qed.

Lemma holding_initialize customerId callbacks (w : World) :
  is_connected w = false ->
  holding (initializeRealtimeConnection customerId callbacks w).2
  = (Some (length (sockets w)), (closed <$> sockets w) ++ [false]).
Proof.
  intros Hc. unfold initializeRealtimeConnection.
  erewrite bind_inl by (unfold socket_connected; by rewrite Hc).
  cbv beta iota. do 3 (erewrite bind_inl by reflexivity; cbv beta).
  rewrite (preserves_listeners holding holding_reads holding_gentle).
  unfold holding. simpl. by rewrite fmap_app.
Qed.

Lemma holding_sock_disconnect s (w : World) :
  holding (sock_disconnect s w).2
  = (socket w, alter (fun _ => true) s (closed <$> sockets w)).
Proof.
  assert (holding (update_socket s set_closed w).2
          = (socket w, alter (fun _ => true) s (closed <$> sockets w))) as Hclose.
  { unfold holding. simpl. f_equal. by apply closed_alter. }
  unfold sock_disconnect. destruct (sockets w !! s) as [o|] eqn:Ho.
  - destruct (connected o); [|done].
    unfold mbind, M_bind. simpl.
    by rewrite (preserves_fire holding holding_reads holding_gentle).
  - unfold holding. simpl. f_equal. symmetry. apply alter_absent.
    by rewrite list_lookup_fmap, Ho.
Qed.

(** After [disconnectRealtime] no connection object is open. *)
Lemma disconnectRealtime_closes (w : World) :
  single_connection w ->
  forall s, (closed <$> sockets (disconnectRealtime w).2) !! s <> Some false.
Proof.
  intros Hsingle.
  assert (forall h, socket w = Some h -> forall s,
            alter (fun _ => true) h (closed <$> sockets w) !! s <> Some false) as Hclosed.
  { intros h Hh s Hs. rewrite list_lookup_alter in Hs. case_decide; subst.
    - by destruct (_ !! s).
    - apply single_connection_flags in Hs; [by simplify_eq | done]. }
  unfold disconnectRealtime, get_socket. unfold mbind at 1, M_bind at 1.
  destruct (socket w) as [h|] eqn:Hh.
  - pose proof (holding_sock_disconnect h w) as Hd. unfold mbind, M_bind.
    destruct (sock_disconnect h w) as [[[]|e] w']; unfold holding in Hd;
      simpl in *; injection Hd as _ ->; by apply Hclosed.
  - intros s Hs. simpl in Hs.
    apply single_connection_flags in Hs; [by simplify_eq | done].
Qed.

Lemma single_connection_step e (w : World) :
  (is_initialize e = true -> socket w = None \/ is_connected w = true) ->
  single_connection w -> single_connection (step e w).2.
Proof.
  intros Hdisc Hsingle.
  destruct (is_initialize e) eqn:Hinit.
  - destruct e; try done. simpl. unfold mbind, M_bind.
    destruct (is_connected w) eqn:Hc.
    + by rewrite initialize_when_connected.
    + destruct (Hdisc eq_refl) as [Hnull|]; [|done].
      pose proof (holding_initialize customerId callbacks w Hc) as Hh.
      destruct (initializeRealtimeConnection customerId callbacks w) as [[h|e] w'];
        simpl in *; apply flags_single_connection; rewrite Hh; simpl;
        intros s Hs; f_equal.
      all: destruct (decide (s < length (closed <$> sockets w))) as [Hlt|Hge];
        [ rewrite lookup_app_l in Hs by done;
          apply single_connection_flags in Hs; [by simplify_eq | done]
        | apply lookup_lt_Some in Hs; rewrite length_app in Hs;
          simpl in Hs; rewrite length_fmap in *; lia ].
  - destruct e; try done.
    3: { apply flags_single_connection. intros i Hi.
         by destruct (disconnectRealtime_closes w Hsingle i). }
    all: apply flags_single_connection;
      rewrite (preserves_step holding holding_reads holding_gentle) by done;
      unfold holding; simpl; intros i Hi; by apply single_connection_flags.
Qed.

(** As long as [initializeRealtimeConnection] is only called while [socket]
    is null or holds a connected object, every open connection object is the
    one held in [socket]. *)
Lemma disciplined_single_connection es (w : World) :
  single_connection w -> disciplined es w -> single_connection (run es w).
Proof.
  revert w. induction es as [|e es IH]; intros w Hsingle Hdisc; [done|].
  destruct Hdisc as [He Hes].
  change (run (e :: es) w) with (run es (step e w).2).
  apply IH; [by apply single_connection_step | done].
Qed.

Lemma single_connection_loaded b env : single_connection (loaded b env).
Proof. intros s (o & Ho & _). done. Qed.

Lemma disciplined_from_loaded es b env :
  disciplined es (loaded b env) ->
  single_connection (run es (loaded b env)).
Proof. apply disciplined_single_connection, single_connection_loaded. Qed.

(** ** Requests *)

Lemma propagates_lift {A} (r : A + thrown) : propagates quiet (lift r).
Proof.
  intros w. split; [done|]. exists []. simpl. split; [by rewrite app_nil_r|].
  split; [destruct r; by rewrite app_nil_r|]. intros i r' e Hi. done.
Qed.

Lemma propagates_ret {A} (a : A) : propagates quiet (mret a).
Proof. apply (propagates_lift (inl a)). Qed.

Lemma propagates_throw {A} (e : thrown) : propagates quiet (throw (A:=A) e).
Proof. apply (propagates_lift (inr e)). Qed.

Lemma propagates_http r : propagates quiet (http r).
Proof.
  intros w. split; [done|]. exists [r]. simpl. split; [done|].
  split; [destruct (backend w _ r); by rewrite app_nil_r|].
  intros [|i] r' e Hi He; simplify_eq/=. by rewrite app_nil_r in He.
Qed.

Lemma propagates_bind {A B} (m : M A) (f : A -> M B) :
  propagates quiet m -> (forall a, propagates quiet (f a)) ->
  propagates quiet (m ≫= f).
Proof.
  intros Hm Hf w. unfold mbind, M_bind.
  destruct (Hm w) as (Hb & sent & Hreq & Hcon & Hrej).
  destruct (m w) as [[a|e] w1]; simpl in *.
  - destruct (Hf a w1) as (Hb' & sent' & Hreq' & Hcon' & Hrej').
    split; [congruence|]. exists (sent ++ sent').
    split; [by rewrite Hreq', Hreq, app_assoc|].
    split; [by rewrite Hcon', Hcon, app_nil_r|].
    intros i r e Hi He.
    destruct (decide (i < length sent)) as [Hlt|Hge].
    + rewrite lookup_app_l in Hi by done.
      rewrite take_app_le in He by lia.
      by destruct (Hrej i r e Hi He).
    + rewrite lookup_app_r in Hi by lia.
      rewrite take_app_ge, app_assoc, <- Hreq, <- Hb in He by lia.
      destruct (Hrej' _ r e Hi He) as [-> Hlen].
      split; [done|]. rewrite length_app. lia.
  - split; [done|]. exists sent. split; [done|]. split; [done|].
    intros i r e' Hi He. destruct (Hrej i r e' Hi He) as [[= ->] Hlen]. done.
Qed.

Lemma propagates_try_catch {A} (m : M A) text :
  propagates quiet m ->
  propagates (fun e => [LogError text e])
    (try_catch m (fun error => console_error text error ;; throw error)).
Proof.
  intros Hm w. unfold try_catch.
  destruct (Hm w) as (Hb & sent & Hreq & Hcon & Hrej).
  destruct (m w) as [[a|e] w1]; simpl in *.
  - split; [done|]. exists sent. split; [done|]. split; [done|]. done.
  - split; [done|]. exists sent. split; [done|].
    split; [by rewrite Hcon, app_nil_r|]. done.
Qed.

Create HintDb propagates.

#[local] Hint Resolve propagates_lift propagates_ret propagates_throw
  propagates_http propagates_bind : propagates.

Lemma propagates_place_each o entries orders :
  propagates quiet (place_each o entries orders).
Proof.
  revert orders. induction entries as [|[restaurantId items] rest IH];
    intros orders; simpl.
  - apply propagates_ret.
  - apply propagates_bind; [apply propagates_http | intros response; apply IH].
Qed.

Lemma propagates_placeOrder orderData : propagates quiet (placeOrder orderData).
Proof.
  unfold placeOrder. apply propagates_bind; [apply propagates_lift|].
  intros groups. destruct (Object_keys groups) as [|k [|k' ks]].
  - apply propagates_bind; [apply propagates_place_each | intros; apply propagates_ret].
  - destruct (own_get groups k).
    + unfold axios_post. auto with propagates.
    + apply propagates_throw.
  - apply propagates_bind; [apply propagates_place_each | intros; apply propagates_ret].
Qed.

Lemma propagates_getOrderStatus orderId :
  propagates status_error_line (getOrderStatus orderId).
Proof.
  unfold getOrderStatus. apply propagates_try_catch.
  apply propagates_bind; [apply propagates_lift|]. intros mye.
  apply propagates_bind.
  - destruct mye; [|apply propagates_ret].
    apply propagates_bind; [apply propagates_http|]. intros response.
    apply propagates_bind; [apply propagates_lift|]. intros success.
    destruct (truthy success); auto 10 with propagates.
  - intros [result|]; [apply propagates_ret|].
    unfold axios_get. auto with propagates.
Qed.

Lemma propagates_getOrder orderId : propagates quiet (getOrder orderId).
Proof. unfold getOrder, axios_get. auto with propagates. Qed.

Lemma propagates_trackOrder orderId : propagates quiet (trackOrder orderId).
Proof. unfold trackOrder, axios_get. auto with propagates. Qed.

Lemma propagates_getCustomerOrders customerId limit :
  propagates quiet (getCustomerOrders customerId limit).
Proof. unfold getCustomerOrders, axios_get. auto with propagates. Qed.

Lemma propagates_cancelOrder orderId reason :
  propagates quiet (cancelOrder orderId reason).
Proof. unfold cancelOrder, axios_post. auto with propagates. Qed.

(** C3. For each of the eight operations: when a request it makes is rejected
    with [e], the operation rejects with that same [e] and makes no further
    request (no retry, no recovery, no other error in its place). Only
    [getOrderStatus] writes to the console on the way, one line with the
    error it rethrows; the seven others leave the console alone. *)
Theorem request_errors_propagate :
  (forall orderData, propagates quiet (submitOrderToRider orderData))
  /\ (forall orderId, propagates status_error_line (getOrderStatus orderId))
  /\ propagates quiet getAvailableOrders
  /\ (forall orderData, propagates quiet (placeOrder orderData))
  /\ (forall orderId, propagates quiet (getOrder orderId))
  /\ (forall orderId, propagates quiet (trackOrder orderId))
  /\ (forall customerId limit, propagates quiet (getCustomerOrders customerId limit))
  /\ (forall orderId reason, propagates quiet (cancelOrder orderId reason)).
Proof.
  repeat apply conj; intros;
    first [ apply propagates_getOrderStatus
          | apply propagates_placeOrder
          | apply propagates_getOrder
          | apply propagates_trackOrder
          | apply propagates_getCustomerOrders
          | apply propagates_cancelOrder
          | unfold submitOrderToRider, getAvailableOrders, axios_get, axios_post;
            auto with propagates ].
Qed.

(** *** Reconnection *)

(** C7. Whatever the history of the channel, every connection object that
    exists was made with reconnection on, 5 attempts and a delay of 1000 ms.
    The module does nothing again of its own accord: there are at most as
    many connection objects as calls of [initializeRealtimeConnection], and
    none of its five request operations makes a request after one was
    rejected. *)
Theorem reconnection_options_fixed (es : list event) (b : Backend) (env : obj value) :
  Forall (fun o => reconnection (io_opts o) = true
                   /\ reconnectionAttempts (io_opts o) = 5%Z
                   /\ reconnectionDelay (io_opts o) = 1000%Z)
         (sockets (run es (loaded b env)))
  /\ length (sockets (run es (loaded b env)))
     <= length (filter (fun e => is_initialize e = true) es)
  /\ (forall orderData, propagates quiet (placeOrder orderData))
  /\ (forall orderId, propagates quiet (getOrder orderId))
  /\ (forall orderId, propagates quiet (trackOrder orderId))
  /\ (forall customerId limit, propagates quiet (getCustomerOrders customerId limit))
  /\ (forall orderId reason, propagates quiet (cancelOrder orderId reason)).
Proof.
  destruct (run_options es (loaded b env)) as (k & Hk & Ek).
  unfold options in Ek. simpl in Ek. split; [|split].
  - apply Forall_forall. intros o Ho.
    assert (io_opts o ∈ replicate k realtime_options) as Hin.
    { rewrite <- Ek. by apply list_elem_of_fmap_2. }
    apply elem_of_replicate in Hin as [-> _]. done.
  - rewrite <- (length_fmap io_opts), Ek, length_replicate. done.
  - repeat apply conj; intros;
      first [ apply propagates_placeOrder | apply propagates_getOrder
            | apply propagates_trackOrder | apply propagates_getCustomerOrders
            | apply propagates_cancelOrder ].
Qed.

(** C10. For an order id starting with ['MYE-']: if the track request is
    answered (not rejected) and the [success] of the answer is falsy,
    [getOrderStatus] goes on to ask the rider backend for that id, and its
    outcome is the outcome of that request: the data of the answer, or the
    rejection, logged and rethrown. For an order id that does not start with
    ['MYE-'], no request goes to the unified backend. *)
Theorem getOrderStatus_falls_back (orderId : value) (w : World) :
  (forall s d success,
     orderId = VStr s ->
     String.prefix "MYE-" s = true ->
     let track := get_request unifiedApiClient ("/orders/" +:+ s +:+ "/track") [] in
     let fetch := get_request riderApiClient ("/api/orders/" +:+ s) [] in
     backend w (requests w) track = inl {| data := d |} ->
     get_prop d "success" = inl success ->
     truthy success = false ->
     getOrderStatus orderId w
     = match backend w (requests w ++ [track]) fetch with
       | inl r => (inl (data r), with_requests (requests w ++ [track; fetch]) w)
       | inr e =>
           (inr e,
            with_console (console w ++ status_error_line e)
              (with_requests (requests w ++ [track; fetch]) w))
       end)
  /\ ((forall s, orderId = VStr s -> String.prefix "MYE-" s = false) ->
      exists sent,
        requests (getOrderStatus orderId w).2 = requests w ++ sent
        /\ Forall (fun r => req_client r = riderApiClient) sent).
Proof.
  split.
  - intros s d success -> Hmye track fetch Htrack Hsuccess Hfalsy.
    unfold getOrderStatus, try_catch, mbind, M_bind, lift, axios_get, http. simpl.
    rewrite Hmye. fold track. rewrite Htrack. simpl.
    rewrite Hsuccess, Hfalsy. simpl. fold fetch.
    destruct (backend w (requests w ++ [track]) fetch) as [r|e]; simpl.
    + by rewrite <- app_assoc.
    + unfold console_error, throw, with_console, with_requests. simpl.
      by rewrite <- app_assoc.
  - intros Hnot.
    unfold getOrderStatus, try_catch, mbind, M_bind, lift, axios_get, http.
    destruct orderId as [| |b|n|s|xs|props|f]; simpl; try by (exists []; rewrite app_nil_r).
    rewrite (Hnot s eq_refl). simpl.
    match goal with |- context [backend w (requests w) ?r] =>
      exists [r]; destruct (backend w (requests w) r) end; simpl; split; try done;
      by repeat constructor.
Qed.

(** ** Grouping the cart *)

Lemma own_get_obj_set {A} (o : obj A) k v k' :
  own_get (obj_set o k v) k' = if decide (k = k') then Some v else own_get o k'.
Proof.
  induction o as [|[k0 v0] o IH]; simpl.
  - done.
  - destruct (decide (k0 = k)) as [->|Hne]; simpl.
    + destruct (decide (k = k')); done.
    + rewrite IH. destruct (decide (k0 = k')) as [->|]; [|done].
      by rewrite decide_False by done.
Qed.

Lemma keys_obj_set_Some {A} (o : obj A) k v v0 :
  own_get o k = Some v0 -> (obj_set o k v).*1 = o.*1.
Proof.
  induction o as [|[k0 v1] o IH]; csimpl; [done|].
  destruct (decide (k0 = k)) as [->|Hne]; csimpl; [done|].
  intros H. by rewrite IH.
Qed.

Lemma obj_set_None {A} (o : obj A) k v :
  own_get o k = None -> obj_set o k v = o ++ [(k, v)].
Proof.
  induction o as [|[k0 v1] o IH]; csimpl; [done|].
  destruct (decide (k0 = k)) as [->|Hne]; [done|].
  intros H. by rewrite IH.
Qed.

Lemma concat_obj_set_Some {A} (o : obj (list A)) k items x :
  own_get o k = Some items ->
  concat (obj_set o k (items ++ [x])).*2 ≡ₚ concat o.*2 ++ [x].
Proof.
  induction o as [|[k0 v1] o IH]; csimpl; [done|].
  destruct (decide (k0 = k)) as [->|Hne]; csimpl.
  - intros [= ->]. rewrite <- !app_assoc. apply Permutation_app_head, Permutation_app_comm.
  - intros H. rewrite IH by done. by rewrite app_assoc.
Qed.

Lemma elem_of_own_get {A} (o : obj A) k v :
  NoDup o.*1 -> (k, v) ∈ o <-> own_get o k = Some v.
Proof.
  induction o as [|[k0 v0] o IH]; simpl; intros Hnd.
  - split; [by intros ?%elem_of_nil | done].
  - apply NoDup_cons in Hnd as [Hk0 Hnd]. rewrite elem_of_cons.
    destruct (decide (k0 = k)) as [->|Hne].
    + split; [intros [[= ->]|Hin]; [done|] | intros [= ->]; by left].
      exfalso. apply Hk0. apply list_elem_of_fmap. by exists (k, v).
    + rewrite <- IH by done. split; [intros [[= -> ->]|?]; done | by right].
Qed.

Lemma grouped_nil : grouped [] [].
Proof. split; [constructor | split; done]. Qed.

Lemma grouped_step seen acc item :
  grouped seen acc ->
  object_prototype (restaurant_key item) = None ->
  exists acc', group_step (inl acc) item = inl acc' /\ grouped (seen ++ [item]) acc'.
Proof.
  intros (Hnd & Hperm & Hget) Hproto. unfold group_step.
  pose proof (Hget (restaurant_key item)) as Hk.
  assert (forall k, filter (fun i => restaurant_key i = k) (seen ++ [item])
                    = filter (fun i => restaurant_key i = k) seen
                      ++ (if decide (restaurant_key item = k) then [item] else [])) as Hfilter.
  { intros k. rewrite filter_app. f_equal. }
  destruct (own_get acc (restaurant_key item)) as [items|] eqn:Hown.
  - eexists. split; [done|]. split; [|split].
    + by erewrite keys_obj_set_Some.
    + rewrite concat_obj_set_Some by done. by rewrite Hperm.
    + intros k. rewrite own_get_obj_set, Hfilter.
      destruct (decide (restaurant_key item = k)) as [<-|Hne]; cbv iota.
      * destruct (filter _ seen) as [|i l]; [done|]. by simplify_eq/=.
      * rewrite app_nil_r. apply Hget.
  - rewrite Hproto. eexists. split; [done|]. rewrite obj_set_None by done.
    split; [|split].
    + rewrite fmap_app. apply NoDup_app. split; [done|]. split; [|apply NoDup_singleton].
      intros k Hin ->%list_elem_of_singleton. by apply own_get_None in Hown.
    + rewrite fmap_app, concat_app. simpl. by rewrite Hperm.
    + intros k. pose proof (own_get_obj_set acc (restaurant_key item) [item] k) as Hs.
      rewrite obj_set_None in Hs by done. rewrite Hs, Hfilter.
      destruct (decide (restaurant_key item = k)) as [<-|Hne]; cbv iota.
      * by destruct (filter _ seen).
      * rewrite app_nil_r. apply Hget.
Qed.

Lemma groupItemsByRestaurant_grouped cart :
  Forall (fun item => object_prototype (restaurant_key item) = None) cart ->
  exists groups, groupItemsByRestaurant cart = inl groups /\ grouped cart groups.
Proof.
  unfold groupItemsByRestaurant.
  induction cart as [|item cart IH] using rev_ind; intros Hcart.
  - exists []. split; [done | apply grouped_nil].
  - apply Forall_app in Hcart as [Hcart Hitem]. rewrite Forall_singleton in Hitem.
    destruct (IH Hcart) as (acc & Hacc & Hgrouped).
    rewrite foldl_snoc, Hacc. by apply grouped_step.
Qed.

(** C5, amended. For a cart in which no item's key is a name that objects
    inherit, [groupItemsByRestaurant] returns groups with distinct keys that
    together hold the items of the cart, each once; the group of key [k] is
    the items of key [k], in cart order; and the key of an item is the
    string form of its [restaurantId] if that is truthy, otherwise of its
    [vendorId] if that is truthy, otherwise ['1']. *)
Theorem groupItemsByRestaurant_partitions (cart : list CartItem) :
  Forall (fun item => object_prototype (restaurant_key item) = None) cart ->
  exists groups,
    groupItemsByRestaurant cart = inl groups
    /\ NoDup groups.*1
    /\ concat groups.*2 ≡ₚ cart
    /\ (forall k items,
          (k, items) ∈ groups
          <-> items <> [] /\ items = filter (fun item => restaurant_key item = k) cart)
    /\ (forall item,
          restaurant_key item
          = if truthy (item_restaurantId item) then to_string (item_restaurantId item)
            else if truthy (item_vendorId item) then to_string (item_vendorId item)
            else "1").
Proof.
  intros Hcart.
  destruct (groupItemsByRestaurant_grouped cart Hcart) as (groups & Hrun & Hnd & Hperm & Hget).
  exists groups. split; [done|]. split; [done|]. split; [done|]. split.
  - intros k items. rewrite elem_of_own_get, Hget by done.
    destruct (filter _ cart) as [|i l]; split.
    + done.
    + by intros [? ->].
    + by intros [= <-].
    + by intros [_ ->].
  - intros item. unfold restaurant_key, js_or.
    destruct (truthy (item_restaurantId item)) eqn:Hrid; [by rewrite Hrid|].
    by destruct (truthy (item_vendorId item)) eqn:Hvid; rewrite ?Hvid.
Qed.

(** ** Placing an order *)

Lemma insert_indexed_perm {A} i (e : string * A) l :
  (insert_indexed i e l).*2 ≡ₚ e :: l.*2.
Proof.
  induction l as [|[j e'] l IH]; csimpl; [done|].
  destruct (i <? j)%N; csimpl; [done|].
  rewrite IH. apply Permutation_swap.
Qed.

Lemma Object_entries_perm {A} (o : obj A) : Object_entries o ≡ₚ o.
Proof.
  unfold Object_entries. induction o as [|[k v] o IH]; csimpl; [done|].
  destruct (array_index k).
  - rewrite insert_indexed_perm. csimpl. by rewrite IH.
  - rewrite <- Permutation_middle. by rewrite IH.
Qed.

Lemma Object_keys_length {A} (o : obj A) : length (Object_keys o) = length o.
Proof.
  unfold Object_keys. rewrite length_fmap. apply Permutation_length, Object_entries_perm.
Qed.

Lemma restaurantSubtotal_sum items :
  restaurantSubtotal items = VNum (sum_price_times_quantity items).
Proof.
  unfold restaurantSubtotal, sum_price_times_quantity.
  generalize (num_lit 0). induction items as [|item items IH]; intros n; simpl; [done|].
  apply IH.
Qed.

Lemma place_each_requests o entries orders w :
  exists n, n <= length entries
    /\ requests (place_each o entries orders w).2
       = requests w
         ++ take n ((fun entry => post_request unifiedApiClient "/orders"
                                    (group_payload o entry.1 entry.2)) <$> entries)
    /\ (forall r, (place_each o entries orders w).1 = inl r -> n = length entries).
Proof.
  revert orders w. induction entries as [|[k items] rest IH]; intros orders w.
  - exists 0. simpl. split; [done|]. split; [by rewrite app_nil_r | done].
  - simpl. unfold mbind, M_bind, axios_post, http.
    destruct (backend w (requests w) _) as [response|e].
    + destruct (IH (orders ++ [data response])
                   (with_requests (requests w ++ [post_request unifiedApiClient "/orders" (group_payload o k items)]) w))
        as (n & Hn & Hreq & Hok).
      exists (S n). split; [simpl; lia|]. split; [|intros r Hr; f_equal; by eapply Hok].
      rewrite Hreq. simpl. by rewrite <- app_assoc.
    + exists 1. split; [simpl; lia|]. split; done.
Qed.

Lemma place_each_amounts o s d t entries orders w :
  place_each (with_amounts o s d t) entries orders w = place_each o entries orders w.
Proof.
  revert orders w. induction entries as [|[k items] rest IH]; intros orders w; simpl; [done|].
  unfold mbind, M_bind.
  change (group_payload (with_amounts o s d t) k items) with (group_payload o k items).
  destruct (axios_post _ _ _ w) as [[response|e] w']; [apply IH | done].
Qed.

Lemma placeOrder_multi o w groups :
  groupItemsByRestaurant (cart o) = inl groups ->
  length groups <> 1 ->
  placeOrder o w
  = match place_each o (Object_entries groups) [] w with
    | (inl orders, w') =>
        (inl (VObj [ ("success", VBool true);
                     ("data", VArr orders);
                     ("message",
                        VStr (pretty (length orders) +:+ " orders placed successfully")) ]),
         w')
    | (inr e, w') => (inr e, w')
    end.
Proof.
  intros Hgroups Hmulti. rewrite <- Object_keys_length in Hmulti.
  unfold placeOrder, mbind, M_bind, lift. rewrite Hgroups.
  destruct (Object_keys groups) as [|k [|k' ks]]; done.
Qed.

(** C4. For an order whose cart falls into two or more restaurant groups:
    [placeOrder] posts one payload per group, each group once, in the order
    [Object.entries] lists them, and stops after a post that is rejected;
    in the payload of a group the subtotal is the sum over its items of price
    times quantity, the deliveryFee is 30 and the total is that subtotal plus
    30 plus the caller's platformFee ([+] as the language has it: the numeric
    sum when platformFee is a number); and [placeOrder] does the same
    whatever subtotal, deliveryFee and total the caller supplied. *)
Theorem placeOrder_group_totals (o : OrderData) (w : World) groups :
  groupItemsByRestaurant (cart o) = inl groups ->
  2 <= length groups ->
  Object_entries groups ≡ₚ groups
  /\ (exists n, n <= length groups
        /\ requests (placeOrder o w).2 = requests w ++ take n (group_posts o groups)
        /\ (forall r, (placeOrder o w).1 = inl r -> n = length groups))
  /\ (forall k items,
        field "subtotal" (group_payload o k items)
          = Some (VNum (sum_price_times_quantity items))
        /\ field "deliveryFee" (group_payload o k items) = Some (VNum (num_lit 30))
        /\ field "platformFee" (group_payload o k items) = Some (platformFee o)
        /\ field "total" (group_payload o k items)
           = Some (js_add (VNum (num_add (sum_price_times_quantity items) (num_lit 30)))
                          (platformFee o))
        /\ (forall fee, platformFee o = VNum fee ->
              field "total" (group_payload o k items)
              = Some (VNum (num_add (num_add (sum_price_times_quantity items)
                                             (num_lit 30)) fee))))
  /\ (forall subtotal' deliveryFee' total',
        placeOrder (with_amounts o subtotal' deliveryFee' total') w = placeOrder o w).
Proof.
  intros Hgroups Hmulti.
  split; [apply Object_entries_perm|]. split; [|split].
  - rewrite (placeOrder_multi o w groups) by (done || lia).
    destruct (place_each_requests o (Object_entries groups) [] w) as (n & Hn & Hreq & Hok).
    rewrite (Permutation_length (Object_entries_perm groups)) in Hn, Hok.
    exists n. destruct (place_each o (Object_entries groups) [] w) as [[orders|e] w'].
    + split; [done|]. split; [done|]. intros r _. by eapply Hok.
    + split; [done|]. split; [done|]. intros r [=].
  - intros k items. unfold group_payload, restaurantTotal, restaurantDeliveryFee.
    rewrite restaurantSubtotal_sum. simpl. repeat split.
    intros fee ->. done.
  - intros s d t.
    rewrite (placeOrder_multi (with_amounts o s d t) w groups) by (done || lia).
    rewrite (placeOrder_multi o w groups) by (done || lia).
    by rewrite place_each_amounts.
Qed.

(** ** When grouping fails *)

Lemma foldl_group_error e cart : foldl group_step (inr e) cart = inr e.
Proof. induction cart as [|item cart IH]; [done | apply IH]. Qed.

Lemma groupItemsByRestaurant_outcome cart :
  match groupItemsByRestaurant cart with
  | inl groups =>
      Forall (fun item => object_prototype (restaurant_key item) = None) cart
      /\ grouped cart groups
  | inr e =>
      e = push_error
      /\ Exists (fun item => object_prototype (restaurant_key item) <> None) cart
  end.
Proof.
  unfold groupItemsByRestaurant.
  induction cart as [|item cart IH] using rev_ind.
  - split; [constructor | apply grouped_nil].
  - rewrite foldl_snoc. destruct (foldl group_step (inl []) cart) as [acc|e].
    + destruct IH as [Hcart Hgrouped].
      destruct (object_prototype (restaurant_key item)) as [v|] eqn:Hproto.
      * assert (own_get acc (restaurant_key item) = None) as Hown.
        { destruct Hgrouped as (_ & _ & Hget). rewrite Hget.
          destruct (filter _ cart) as [|first rest] eqn:Hfilter; [done|].
          assert (first ∈ filter (fun i => restaurant_key i = restaurant_key item) cart)
            as [Hkey Hin]%list_elem_of_filter by (rewrite Hfilter; left).
          rewrite Forall_forall in Hcart. apply Hcart in Hin. congruence. }
        unfold group_step. rewrite Hown, Hproto. split; [done|].
        apply Exists_app. right. constructor. congruence.
      * destruct (grouped_step cart acc item Hgrouped Hproto) as (acc' & -> & Hacc').
        split; [|done]. apply Forall_app. split; [done | by constructor].
    + destruct IH as [-> Hbad]. split; [done|]. apply Exists_app. by left.
Qed.

(** X1. [groupItemsByRestaurant] throws exactly when some item's key is a
    name that objects inherit, and what it throws is the TypeError of
    calling [push] on the inherited property. *)
Theorem groupItemsByRestaurant_throws_iff (cart : list CartItem) :
  (groupItemsByRestaurant cart = inr push_error
   <-> Exists (fun item => object_prototype (restaurant_key item) <> None) cart)
  /\ (forall e, groupItemsByRestaurant cart = inr e -> e = push_error).
Proof.
  pose proof (groupItemsByRestaurant_outcome cart) as Hout.
  destruct (groupItemsByRestaurant cart) as [groups|e].
  - destruct Hout as [Hcart _]. split; [|done]. split; [done|].
    intros (item & Hin & Hbad)%Exists_exists.
    rewrite Forall_forall in Hcart. by apply Hcart in Hin.
  - destruct Hout as [-> Hbad]. split; [done | by intros e [= <-]].
Qed.

(** ** Placing an order: the branches *)

(** X2. A cart with an item whose key is an inherited name makes
    [placeOrder] reject with that TypeError before any request: nothing is
    sent, the world is what it was. *)
Theorem placeOrder_rejects_inherited_key (o : OrderData) (w : World) :
  Exists (fun item => object_prototype (restaurant_key item) <> None) (cart o) ->
  placeOrder o w = (inr push_error, w).
Proof.
  intros Hbad. pose proof (groupItemsByRestaurant_outcome (cart o)) as Hout.
  unfold placeOrder, mbind, M_bind, lift.
  destruct (groupItemsByRestaurant (cart o)) as [groups|e].
  - destruct Hout as [Hcart _]. apply Exists_exists in Hbad as (item & Hin & Hitem).
    rewrite Forall_forall in Hcart. by apply Hcart in Hin.
  - by destruct Hout as [-> _].
Qed.

(** X4. With an empty cart [placeOrder] sends nothing and reports success:
    no orders, and the message counts 0 of them. *)
Theorem placeOrder_empty_cart (o : OrderData) (w : World) :
  cart o = [] ->
  placeOrder o w
  = (inl (VObj [ ("success", VBool true);
                 ("data", VArr []);
                 ("message", VStr "0 orders placed successfully") ]),
     w).
Proof. intros Hcart. unfold placeOrder. rewrite Hcart. reflexivity. Qed.

Lemma group_same_key k items rest :
  Forall (fun item => restaurant_key item = k) rest ->
  foldl group_step (inl [(k, items)]) rest = inl [(k, items ++ rest)].
Proof.
  revert items. induction rest as [|item rest IH]; intros items Hrest.
  - simpl. by rewrite app_nil_r.
  - apply Forall_cons in Hrest as [Hitem Hrest]. simpl. rewrite Hitem.
    rewrite decide_True by done. simpl. rewrite decide_True by done.
    rewrite IH by done. by rewrite <- app_assoc.
Qed.

Lemma group_one_restaurant k first rest :
  Forall (fun item => restaurant_key item = k) (first :: rest) ->
  object_prototype k = None ->
  groupItemsByRestaurant (first :: rest) = inl [(k, first :: rest)].
Proof.
  intros [Hfirst Hrest]%Forall_cons Hproto. unfold groupItemsByRestaurant. simpl.
  rewrite Hfirst, Hproto. simpl. by apply group_same_key.
Qed.

(** X3. When every item of a non-empty cart has the same key, [placeOrder]
    makes exactly one post; its payload carries the caller's subtotal,
    deliveryFee, platformFee and total as supplied, all the items in cart
    order with their notes, and the order notes; the outcome is that of the
    post. *)
Theorem placeOrder_single_restaurant (o : OrderData) (w : World) k first rest :
  cart o = first :: rest ->
  Forall (fun item => restaurant_key item = k) (cart o) ->
  object_prototype k = None ->
  let post := post_request unifiedApiClient "/orders" (single_payload o k (cart o)) in
  placeOrder o w
  = (match backend w (requests w) post with
     | inl response => inl (data response)
     | inr e => inr e
     end,
     with_requests (requests w ++ [post]) w)
  /\ field "subtotal" (req_data post) = Some (subtotal o)
  /\ field "deliveryFee" (req_data post) = Some (deliveryFee o)
  /\ field "platformFee" (req_data post) = Some (platformFee o)
  /\ field "total" (req_data post) = Some (total o)
  /\ field "notes" (req_data post) = Some (js_or (notes (customerInfo o)) VNull)
  /\ sent_items post
     = (fun item => VObj (item_fields item ++ [("notes", js_or (item_notes item) VNull)]))
       <$> cart o.
Proof.
  intros Hcart Hkey Hproto post. split; [|by repeat split].
  unfold placeOrder, mbind, M_bind, lift. rewrite Hcart in Hkey.
  rewrite Hcart at 1. rewrite (group_one_restaurant k first rest) by done.
  replace (Object_keys [(k, first :: rest)]) with [k]
    by (unfold Object_keys, Object_entries; simpl; by destruct (array_index k)).
  simpl. rewrite decide_True by done. unfold axios_post, http.
  rewrite <- Hcart. fold post. by destruct (backend w (requests w) post).
Qed.
(** ** Placing an order: several restaurants *)

Lemma place_each_orders o entries acc w orders w' :
  place_each o entries acc w = (inl orders, w') ->
  exists answers,
    orders = acc ++ answers
    /\ length answers = length entries
    /\ forall i entry,
         entries !! i = Some entry ->
         exists response,
           backend w
             (requests w
              ++ take i ((fun entry => post_request unifiedApiClient "/orders"
                                         (group_payload o entry.1 entry.2)) <$> entries))
             (post_request unifiedApiClient "/orders" (group_payload o entry.1 entry.2))
           = inl response
           /\ answers !! i = Some (data response).
Proof.
  revert acc w. induction entries as [|[k items] rest IH]; intros acc w Hrun.
  - injection Hrun as <- <-. exists []. rewrite app_nil_r. by repeat split.
  - simpl in Hrun. unfold mbind, M_bind, axios_post, http in Hrun.
    destruct (backend w (requests w) _) as [response|e] eqn:Hpost; [|done].
    destruct (IH _ _ Hrun) as (answers & -> & Hlen & Hanswers).
    exists (data response :: answers). rewrite <- app_assoc.
    split; [done|]. split; [simpl; by rewrite Hlen|].
    intros [|i] entry Hentry.
    + injection Hentry as <-. exists response. simpl. by rewrite app_nil_r.
    + destruct (Hanswers i entry Hentry) as (response' & Hpost' & Hi).
      exists response'. split; [|done]. simpl in *.
      by rewrite <- app_assoc in Hpost'.
Qed.

(** X5. When an order for several restaurants succeeds, [placeOrder] returns
    one entry per group, entry [i] being the answer to the post for group
    [i], and a message that counts the groups. *)
Theorem placeOrder_reports_each_group (o : OrderData) (w : World) groups r :
  groupItemsByRestaurant (cart o) = inl groups ->
  length groups <> 1 ->
  (placeOrder o w).1 = inl r ->
  exists orders,
    r = VObj [ ("success", VBool true);
               ("data", VArr orders);
               ("message",
                  VStr (pretty (length groups) +:+ " orders placed successfully")) ]
    /\ length orders = length groups
    /\ forall i post,
         group_posts o groups !! i = Some post ->
         exists response,
           backend w (requests w ++ take i (group_posts o groups)) post = inl response
           /\ orders !! i = Some (data response).
Proof.
  intros Hgroups Hmulti Hr. rewrite (placeOrder_multi o w groups) in Hr by done.
  destruct (place_each o (Object_entries groups) [] w) as [[orders|e] w'] eqn:Hrun;
    [|done].
  injection Hr as <-.
  destruct (place_each_orders _ _ _ _ _ _ Hrun) as (answers & -> & Hlen & Hanswers).
  assert (length answers = length groups) as Hcount
    by (by rewrite Hlen, (Permutation_length (Object_entries_perm groups))).
  simpl. rewrite Hcount. exists answers. split; [done|]. split; [done|].
  intros i post Hpost. unfold group_posts in Hpost. rewrite list_lookup_fmap in Hpost.
  destruct (Object_entries groups !! i) as [entry|] eqn:Hentry; [|done].
  injection Hpost as <-. by apply Hanswers.
Qed.

Lemma concat_perm {A} (l1 l2 : list (list A)) :
  l1 ≡ₚ l2 -> concat l1 ≡ₚ concat l2.
Proof.
  induction 1 as [|x l1 l2 _ IH|x y l|l1 l2 l3 _ IH1 _ IH2]; simpl.
  - done.
  - by rewrite IH.
  - rewrite !app_assoc. apply Permutation_app_tail, Permutation_app_comm.
  - by rewrite IH1.
Qed.

Lemma sent_items_group_posts o (entries : list (string * list CartItem)) :
  concat (sent_items <$>
            ((fun entry => post_request unifiedApiClient "/orders"
                             (group_payload o entry.1 entry.2)) <$> entries))
  = (fun item => VObj (item_fields item)) <$> concat entries.*2.
Proof.
  induction entries as [|[k items] rest IH]; csimpl; [done|].
  rewrite fmap_app. f_equal. apply IH.
Qed.

(** X6. When an order for several restaurants succeeds, the posts together
    carry every item of the cart exactly once. *)
Theorem placeOrder_sends_every_item_once (o : OrderData) (w : World) groups r :
  groupItemsByRestaurant (cart o) = inl groups ->
  length groups <> 1 ->
  (placeOrder o w).1 = inl r ->
  exists sent,
    requests (placeOrder o w).2 = requests w ++ sent
    /\ concat (sent_items <$> sent)
       ≡ₚ (fun item => VObj (item_fields item)) <$> cart o.
Proof.
  intros Hgroups Hmulti Hr.
  pose proof (groupItemsByRestaurant_outcome (cart o)) as Hout.
  rewrite Hgroups in Hout. destruct Hout as (_ & _ & Hperm & _).
  rewrite (placeOrder_multi o w groups) in Hr |- * by done.
  destruct (place_each_requests o (Object_entries groups) [] w) as (n & Hn & Hreq & Hall).
  destruct (place_each o (Object_entries groups) [] w) as [[orders|e] w'] eqn:Hrun;
    [|done].
  simpl in *. rewrite (Hall orders eq_refl), firstn_all2 in Hreq
    by (by rewrite length_fmap).
  eexists. split; [exact Hreq|].
  rewrite sent_items_group_posts.
  apply fmap_Permutation. rewrite <- Hperm.
  apply concat_perm, fmap_Permutation, Object_entries_perm.
Qed.

Lemma group_payload_without_notes o k items :
  field "notes" (group_payload o k items) = None
  /\ Forall (fun sent => field "notes" sent = None)
       (sent_items (post_request unifiedApiClient "/orders" (group_payload o k items))).
Proof.
  split; [done|]. unfold sent_items. simpl.
  apply Forall_fmap, Forall_forall. by intros item _.
Qed.

(** X7. In an order for several restaurants no post carries notes: neither
    the customer's notes on the order nor the notes on an item are sent. *)
Theorem placeOrder_multi_drops_notes (o : OrderData) (w : World) groups :
  groupItemsByRestaurant (cart o) = inl groups ->
  length groups <> 1 ->
  exists sent,
    requests (placeOrder o w).2 = requests w ++ sent
    /\ Forall (fun post =>
                 field "notes" (req_data post) = None
                 /\ Forall (fun item => field "notes" item = None) (sent_items post))
         sent.
Proof.
  intros Hgroups Hmulti. rewrite (placeOrder_multi o w groups) by done.
  destruct (place_each_requests o (Object_entries groups) [] w) as (n & _ & Hreq & _).
  eexists. split.
  - destruct (place_each o (Object_entries groups) [] w) as [[orders|e] w']; exact Hreq.
  - apply Forall_take, Forall_fmap, Forall_forall. intros [k items] _.
    apply group_payload_without_notes.
Qed.

(** ** getOrderStatus: the tracked branch *)

(** X8. For an order id starting with ['MYE-'], when the track request is
    answered with an object whose [success] is truthy and whose [data] is an
    object, [getOrderStatus] makes that one request only (the rider backend
    is not asked) and returns the properties of [data.order] with [status]
    set to [data.currentStatus] and [timeline] to [data.timeline], whatever
    [data.order] held under those two names. *)
Theorem getOrderStatus_tracked (s : string) (w : World) answer tracking :
  String.prefix "MYE-" s = true ->
  let track := get_request unifiedApiClient ("/orders/" +:+ s +:+ "/track") [] in
  backend w (requests w) track = inl {| data := VObj answer |} ->
  truthy (obj_get answer "success") = true ->
  obj_get answer "data" = VObj tracking ->
  exists result,
    getOrderStatus (VStr s) w
    = (inl (VObj result), with_requests (requests w ++ [track]) w)
    /\ own_get result "status" = Some (obj_get tracking "currentStatus")
    /\ own_get result "timeline" = Some (obj_get tracking "timeline")
    /\ forall k, k <> "status" -> k <> "timeline" ->
         own_get result k = own_get (spread (obj_get tracking "order")) k.
Proof.
  intros Hmye track Htrack Hsuccess Hdata.
  exists (obj_set (obj_set (spread (obj_get tracking "order"))
                    "status" (obj_get tracking "currentStatus"))
            "timeline" (obj_get tracking "timeline")).
  split; [|split; [|split]].
  - unfold getOrderStatus, try_catch, mbind, M_bind, lift, axios_get, http. simpl.
    rewrite Hmye. fold track. rewrite Htrack. simpl.
    rewrite Hsuccess, Hdata. reflexivity.
  - rewrite !own_get_obj_set. by rewrite decide_False, decide_True.
  - rewrite own_get_obj_set. by rewrite decide_True.
  - intros k Hstatus Htimeline. rewrite !own_get_obj_set.
    by rewrite !decide_False.
Qed.

(** X9. For an order id starting with ['MYE-'], when the track request is
    answered but the answer cannot be read ([response.data] is null or
    undefined, or [success] is truthy while [data] is null or undefined),
    [getOrderStatus] rejects with the TypeError, after logging it, and does
    not fall back on the rider backend. *)
Theorem getOrderStatus_unreadable_answer (s : string) (w : World) d :
  String.prefix "MYE-" s = true ->
  let track := get_request unifiedApiClient ("/orders/" +:+ s +:+ "/track") [] in
  backend w (requests w) track = inl {| data := d |} ->
  d = VUndefined \/ d = VNull
  \/ (exists answer,
        d = VObj answer
        /\ truthy (obj_get answer "success") = true
        /\ (obj_get answer "data" = VUndefined \/ obj_get answer "data" = VNull)) ->
  exists msg,
    getOrderStatus (VStr s) w
    = (inr (TypeError msg),
       with_console (console w ++ status_error_line (TypeError msg))
         (with_requests (requests w ++ [track]) w)).
Proof.
  intros Hmye track Htrack Hbad.
  unfold getOrderStatus, try_catch, mbind, M_bind, lift, axios_get, http. simpl.
  rewrite Hmye. fold track. rewrite Htrack. simpl.
  destruct Hbad as [-> | [-> | (answer & -> & Hsuccess & [Hdata|Hdata])]]; simpl;
    rewrite ?Hsuccess, ?Hdata; simpl; by eexists.
Qed.

(** X10. An order id that is not a string makes [getOrderStatus] reject with
    a TypeError, logged like any other failure, without any request. *)
Theorem getOrderStatus_not_a_string (orderId : value) (w : World) :
  (forall s, orderId <> VStr s) ->
  exists msg,
    getOrderStatus orderId w
    = (inr (TypeError msg),
       with_console (console w ++ status_error_line (TypeError msg)) w).
Proof.
  intros Hnot. unfold getOrderStatus, try_catch, mbind, M_bind, lift.
  destruct orderId as [| |b|n|s|xs|props|f]; simpl; try by eexists.
  by destruct (Hnot s).
Qed.

(** ** formatOrderStatus on every value *)




(** ** The channel: what a call does *)

Lemma fmap_alter_same {A B} (p : A -> B) (g : A -> A) s (l : list A) :
  (forall x, p (g x) = p x) -> p <$> alter g s l = p <$> l.
Proof.
  intros Hg. revert s. induction l as [|x l IH]; intros [|s]; f_equal/=; auto.
Qed.

Lemma alter_present {A} (g : A -> A) s (l : list A) x :
  l !! s = Some x -> alter g s l = <[s := g x]> l.
Proof.
  intros Hs. rewrite list_insert_alter. apply list_eq. intros i.
  rewrite !list_lookup_alter. case_decide; subst; by rewrite ?Hs.
Qed.

Lemma socket_on_last ev l (w : World) olds x :
  socket w = Some (length olds) ->
  sockets w = olds ++ [x] ->
  socket_on ev l w = (inl tt, with_sockets (olds ++ [add_listener ev l x]) w).
Proof.
  intros Hheld Hsockets. unfold socket_on, the_socket, sock_on, update_socket.
  unfold mbind, M_bind. rewrite Hheld, Hsockets.
  replace (length olds) with (length olds + 0) by lia.
  by rewrite alter_app_r.
Qed.

Lemma initialize_fresh customerId callbacks (w : World) :
  is_connected w = false ->
  initializeRealtimeConnection customerId callbacks w
  = (inl (Some (length (sockets w))),
     with_socket (Some (length (sockets w)))
       (with_sockets
          (sockets w
           ++ [ {| io_url := WEBSOCKET_URL w; io_opts := realtime_options;
                   connected := false; closed := false;
                   listeners := standard_listeners customerId callbacks;
                   emitted := [] |} ])
          w)).
Proof.
  intros Hc. unfold initializeRealtimeConnection.
  erewrite bind_inl by (unfold socket_connected; by rewrite Hc).
  cbv beta iota. do 3 (erewrite bind_inl by reflexivity; cbv beta).
  do 8 (erewrite bind_inl by (apply socket_on_last; reflexivity); cbv beta).
  reflexivity.
Qed.

(** X12. Called while [socket] is null or holds an object that is not
    connected, [initializeRealtimeConnection] creates exactly one connection
    object, to the configured URL with the fixed options, not yet connected,
    binds the eight listeners to it, in order, and to no other object, stores
    it in [socket] and returns it. *)
Theorem initialize_creates_and_binds customerId callbacks (w : World) :
  socket w = None
  \/ (exists s o, socket w = Some s /\ sockets w !! s = Some o /\ connected o = false) ->
  initializeRealtimeConnection customerId callbacks w
  = (inl (Some (length (sockets w))),
     with_socket (Some (length (sockets w)))
       (with_sockets
          (sockets w
           ++ [ {| io_url := WEBSOCKET_URL w; io_opts := realtime_options;
                   connected := false; closed := false;
                   listeners := standard_listeners customerId callbacks;
                   emitted := [] |} ])
          w)).
Proof.
  intros H. apply initialize_fresh. unfold is_connected.
  by destruct H as [-> | (s & o & -> & -> & ->)].
Qed.

(** X13. Whenever [socket] holds an object that is open but not connected
    (still connecting, or reconnecting after a drop),
    [initializeRealtimeConnection] replaces it in [socket] by a new object
    without closing it: the old object stays open, held by nothing. *)
Theorem initialize_abandons_unconnected customerId callbacks (w : World) s o :
  socket w = Some s ->
  sockets w !! s = Some o ->
  connected o = false ->
  closed o = false ->
  socket (initializeRealtimeConnection customerId callbacks w).2
    = Some (length (sockets w))
  /\ sockets (initializeRealtimeConnection customerId callbacks w).2 !! s = Some o
  /\ abandoned (initializeRealtimeConnection customerId callbacks w).2 s.
Proof.
  intros Hheld Ho Hc Hopen.
  rewrite initialize_fresh by (unfold is_connected; by rewrite Hheld, Ho).
  simpl. pose proof (lookup_lt_Some _ _ _ Ho) as Hlt.
  assert ((sockets w ++ [ {| io_url := WEBSOCKET_URL w; io_opts := realtime_options;
                             connected := false; closed := false;
                             listeners := standard_listeners customerId callbacks;
                             emitted := [] |} ]) !! s = Some o) as Hs
    by (by rewrite lookup_app_l).
  split; [done|]. split; [done|].
  exists o. split; [done|]. split; [done|]. simpl. intros [= Heq]. lia.
Qed.

(** X14. While [socket] holds a connected object, [subscribeToOrder] emits
    ['order:subscribe'] and then ['customer:track_order'] with the order id
    on that object, and [unsubscribeFromOrder] emits ['order:unsubscribe'];
    each logs one line, returns normally and changes nothing else: no other
    object, no request. *)
Theorem subscribe_unsubscribe_emit orderId (w : World) s o :
  socket w = Some s ->
  sockets w !! s = Some o ->
  connected o = true ->
  subscribeToOrder orderId w
  = (inl tt,
     with_console
       (console w
        ++ [Log ("👁️ Subscribed to order tracking: " +:+ to_string orderId) []])
       (with_sockets
          (<[s := add_emitted "customer:track_order" orderId
                    (add_emitted "order:subscribe" orderId o)]> (sockets w))
          w))
  /\ unsubscribeFromOrder orderId w
     = (inl tt,
        with_console
          (console w ++ [Log ("👁️ Unsubscribed from order: " +:+ to_string orderId) []])
          (with_sockets (<[s := add_emitted "order:unsubscribe" orderId o]> (sockets w))
             w)).
Proof.
  intros Hheld Ho Hc.
  assert (is_connected w = true) as Hconn
    by (unfold is_connected; by rewrite Hheld, Ho).
  pose proof (lookup_lt_Some _ _ _ Ho) as Hlt.
  split.
  - unfold subscribeToOrder, socket_connected, socket_emit, the_socket, sock_emit,
      update_socket, console_log, mbind, M_bind. rewrite Hconn. simpl. rewrite Hheld.
    simpl. rewrite Hheld. simpl.
    rewrite (alter_present _ s (sockets w) o) by done.
    rewrite (alter_present _ s _ (add_emitted "order:subscribe" orderId o))
      by (by rewrite list_lookup_insert_eq).
    by rewrite list_insert_insert_eq.
  - unfold unsubscribeFromOrder, socket_connected, socket_emit, the_socket, sock_emit,
      update_socket, console_log, mbind, M_bind. rewrite Hconn. simpl. rewrite Hheld.
    simpl. by rewrite (alter_present _ s (sockets w) o).
Qed.

(** ** The channel: what only emits *)

Lemma shape_the_socket : preserves shape the_socket.
Proof. intros w. unfold the_socket. by destruct (socket w). Qed.

Lemma shape_socket_emit ev a : preserves shape (socket_emit ev a).
Proof.
  apply preserves_bind; [apply shape_the_socket|].
  intros s w. unfold shape. simpl. f_equal. by apply fmap_alter_same.
Qed.

Lemma shape_call_if g a : preserves shape (call_if g a).
Proof. by destruct g. Qed.

Lemma shape_run_listener l a : preserves shape (run_listener l a).
Proof.
  destruct l; simpl;
    repeat first [ apply preserves_bind; [|intros _]
                 | apply shape_socket_emit
                 | apply shape_call_if
                 | done ].
Qed.

Lemma shape_fire s ev a : preserves shape (fire s ev a).
Proof.
  intros w. unfold fire. destruct (sockets w !! s); [|done].
  apply preserves_for_of. intros el. apply shape_run_listener.
Qed.

Lemma shape_subscribeToOrder orderId : preserves shape (subscribeToOrder orderId).
Proof.
  unfold subscribeToOrder. apply preserves_bind; [done|]. intros []; [|done].
  repeat first [ apply preserves_bind; [|intros _] | apply shape_socket_emit | done ].
Qed.

Lemma shape_unsubscribeFromOrder orderId :
  preserves shape (unsubscribeFromOrder orderId).
Proof.
  unfold unsubscribeFromOrder. apply preserves_bind; [done|]. intros []; [|done].
  repeat first [ apply preserves_bind; [|intros _] | apply shape_socket_emit | done ].
Qed.

Lemma shape_lookup (w w' : World) s o :
  shape w' = shape w ->
  sockets w !! s = Some o ->
  exists o', sockets w' !! s = Some o' /\ socket_shape o' = socket_shape o.
Proof.
  intros [= _ Hshape] Ho.
  assert ((socket_shape <$> sockets w') !! s = Some (socket_shape o)) as Hs
    by (by rewrite Hshape, list_lookup_fmap, Ho).
  rewrite list_lookup_fmap in Hs. destruct (sockets w' !! s) as [o'|]; [|done].
  simpl in Hs. exists o'. split; [done | congruence].
Qed.

Lemma wiring_shape {A} (m : M A) : preserves shape m -> preserves wiring m.
Proof.
  intros Hm w. specialize (Hm w). injection Hm as _ Hm. unfold wiring.
  change listeners with (snd ∘ socket_shape). by rewrite !list_fmap_compose, Hm.
Qed.

Lemma wiring_update s g :
  (forall o, listeners (g o) = listeners o) -> preserves wiring (update_socket s g).
Proof. intros Hg w. by apply fmap_alter_same. Qed.

(** ** disconnectRealtime *)

Lemma sock_disconnect_closes s (w : World) o :
  sockets w !! s = Some o ->
  socket (sock_disconnect s w).2 = socket w
  /\ exists o', sockets (sock_disconnect s w).2 !! s = Some o'
                /\ closed o' = true /\ connected o' = false.
Proof.
  intros Ho. unfold sock_disconnect. rewrite Ho.
  assert (alter set_closed s (sockets w) !! s = Some (set_closed o)) as Hs
    by (by rewrite list_lookup_alter_eq, Ho).
  destruct (connected o).
  - unfold mbind, M_bind. simpl.
    pose proof (shape_fire s "disconnect" (VStr "io client disconnect")
                  (with_sockets (alter set_closed s (sockets w)) w)) as Hshape.
    destruct (shape_lookup _ _ s _ Hshape Hs) as (o' & Ho' & [= _ _ Hconn Hclosed _]).
    injection Hshape as Hsocket _. split; [done|]. by exists o'.
  - split; [done|]. by exists (set_closed o).
Qed.

Lemma disconnectRealtime_null (w : World) :
  (disconnectRealtime w).1 = inl tt -> socket (disconnectRealtime w).2 = None.
Proof.
  unfold disconnectRealtime, get_socket, mbind, M_bind.
  destruct (socket w) as [s|] eqn:Hs; [|done].
  by destruct (sock_disconnect s w) as [[[]|e] w'].
Qed.

Lemma null_socket_noop (w : World) orderId :
  socket w = None ->
  disconnectRealtime w = (inl tt, w)
  /\ subscribeToOrder orderId w = (inl tt, w)
  /\ unsubscribeFromOrder orderId w = (inl tt, w).
Proof.
  intros Hnull.
  unfold disconnectRealtime, subscribeToOrder, unsubscribeFromOrder, socket_connected,
    is_connected, get_socket, mbind, M_bind.
  by rewrite Hnull.
Qed.

(** X15. [disconnectRealtime] closes the object held in [socket]: whatever
    happens, that object ends closed and not connected. When the call returns
    normally [socket] is null afterwards, so that a second
    [disconnectRealtime], [subscribeToOrder] and [unsubscribeFromOrder] all
    leave the world as it is. *)
Theorem disconnectRealtime_closes_and_clears (w : World) :
  (forall s o,
     socket w = Some s -> sockets w !! s = Some o ->
     exists o', sockets (disconnectRealtime w).2 !! s = Some o'
                /\ closed o' = true /\ connected o' = false)
  /\ ((disconnectRealtime w).1 = inl tt ->
      socket (disconnectRealtime w).2 = None
      /\ disconnectRealtime (disconnectRealtime w).2 = (inl tt, (disconnectRealtime w).2)
      /\ forall orderId,
           subscribeToOrder orderId (disconnectRealtime w).2
             = (inl tt, (disconnectRealtime w).2)
           /\ unsubscribeFromOrder orderId (disconnectRealtime w).2
             = (inl tt, (disconnectRealtime w).2)).
Proof.
  split.
  - intros s o Hs Ho.
    destruct (sock_disconnect_closes s w o Ho) as (_ & o' & Ho' & Hclosed & Hconn).
    exists o'. split; [|done].
    unfold disconnectRealtime, get_socket, mbind, M_bind. rewrite Hs.
    by destruct (sock_disconnect s w) as [[[]|e] w'].
  - intros Hnull%disconnectRealtime_null.
    split; [done|]. split; [by apply (null_socket_noop _ VUndefined)|].
    intros orderId. by apply null_socket_noop.
Qed.

(** ** The channel: what holds along every history *)

Lemma wiring_sock_disconnect s : preserves wiring (sock_disconnect s).
Proof.
  intros w. unfold sock_disconnect. destruct (sockets w !! s) as [o|]; [|done].
  destruct (connected o).
  - apply preserves_bind; [by apply wiring_update|].
    intros _. apply wiring_shape, shape_fire.
  - by apply wiring_update.
Qed.

Lemma wiring_step e :
  is_initialize e = false -> preserves wiring (step e).
Proof.
  intros Hinit. destruct e; simpl; try done.
  - apply wiring_shape, shape_subscribeToOrder.
  - apply wiring_shape, shape_unsubscribeFromOrder.
  - unfold disconnectRealtime. apply preserves_bind; [done|].
    intros [h|]; [|done].
    apply preserves_bind; [apply wiring_sock_disconnect | done].
  - apply preserves_library_event, preserves_bind; [by apply wiring_update|].
    intros _. apply wiring_shape, shape_fire.
  - apply preserves_library_event, preserves_bind; [by apply wiring_update|].
    intros _. apply wiring_shape, shape_fire.
  - apply preserves_library_event, wiring_shape, shape_fire.
Qed.

Lemma wired_wiring (w w' : World) : wiring w' = wiring w -> wired w -> wired w'.
Proof.
  unfold wired, wiring. rewrite !Forall_lookup. intros Hw Hwired i o' Ho'.
  assert ((listeners <$> sockets w) !! i = Some (listeners o')) as Hi
    by (by rewrite <- Hw, list_lookup_fmap, Ho').
  rewrite list_lookup_fmap in Hi. destruct (sockets w !! i) as [o|] eqn:Ho; [|done].
  simpl in Hi. destruct (Hwired i o Ho) as (customerId & callbacks & Hl).
  exists customerId, callbacks. congruence.
Qed.

Lemma wired_step e (w : World) : wired w -> wired (step e w).2.
Proof.
  intros Hwired. destruct (is_initialize e) eqn:Hinit.
  - destruct e; try done. simpl. unfold mbind, M_bind.
    destruct (is_connected w) eqn:Hc.
    + by rewrite initialize_when_connected.
    + rewrite initialize_fresh by done. simpl.
      apply Forall_app. split; [done|]. constructor; [|constructor].
      by exists customerId, callbacks.
  - eapply wired_wiring; [by apply wiring_step | done].
Qed.

Lemma run_wired es (w : World) : wired w -> wired (run es w).
Proof.
  revert w. induction es as [|e es IH]; intros w Hwired; [done|].
  apply (IH (step e w).2), wired_step, Hwired.
Qed.

(** X16. Along every history of calls and library events, each connection
    object carries exactly the eight listeners that the call which created
    it bound: none is bound twice, added later or removed. *)
Theorem listeners_bound_once (es : list event) (b : Backend) (env : obj value) :
  Forall (fun o => exists customerId callbacks,
                     listeners o = standard_listeners customerId callbacks)
         (sockets (run es (loaded b env))).
Proof. apply run_wired. constructor. Qed.







(** ** The channel: what an event does *)

Lemma fire_standard s ev arg (w : World) o customerId callbacks :
  sockets w !! s = Some o ->
  listeners o = standard_listeners customerId callbacks ->
  fire s ev arg w
  = for_of (filter (fun el => el.1 = ev) (standard_listeners customerId callbacks))
           (fun el => run_listener el.2 arg) w.
Proof. intros Ho Hl. unfold fire. by rewrite Ho, Hl. Qed.

(** X19. On a connected object that carries the eight listeners, each of
    the five data events of the server is logged with its data and handed,
    once, to the callback the caller supplied for it, if any; ['authenticated']
    is only logged; any other event does nothing at all. *)
Theorem server_events_relayed (w : World) s o customerId callbacks (arg : value) :
  sockets w !! s = Some o ->
  connected o = true ->
  listeners o = standard_listeners customerId callbacks ->
  step (Server_event s "order_accepted" arg) w
    = (inl tt, relayed "📦 Order accepted:" (onOrderAccepted callbacks) arg w)
  /\ step (Server_event s "order_rejected" arg) w
    = (inl tt, relayed "❌ Order rejected:" (onOrderRejected callbacks) arg w)
  /\ step (Server_event s "order_status_updated" arg) w
    = (inl tt, relayed "📋 Order status updated:" (onStatusUpdate callbacks) arg w)
  /\ step (Server_event s "order_updated" arg) w
    = (inl tt, relayed "📦 Order updated:" (onOrderUpdate callbacks) arg w)
  /\ step (Server_event s "rider_location" arg) w
    = (inl tt, relayed "🛵 Rider location update:" (onRiderLocation callbacks) arg w)
  /\ step (Server_event s "authenticated" arg) w
    = (inl tt,
       with_console (console w ++ [Log "✅ Authenticated with real-time server" [arg]]) w)
  /\ forall name,
       name ∉ [ "order_accepted"; "order_rejected"; "order_status_updated";
                "order_updated"; "rider_location"; "authenticated" ] ->
       step (Server_event s name arg) w = (inl tt, w).
Proof.
  intros Ho Hc Hl.
  assert (forall name,
            step (Server_event s name arg) w
            = if bool_decide (name ∈ ["connect"; "connect_error"; "disconnect"])
              then (inl tt, w)
              else for_of (filter (fun el => el.1 = name)
                             (standard_listeners customerId callbacks))
                          (fun el => run_listener el.2 arg) w) as Hstep.
  { intros name. simpl. unfold library_event. rewrite Ho, Hc. simpl.
    destruct (bool_decide _); [done|]. simpl. by apply (fire_standard s _ _ _ o). }
  repeat split.
  1-5: rewrite Hstep; simpl; unfold relayed;
    match goal with |- context [call_if ?f] => by destruct f end.
  - by rewrite Hstep.
  - intros name Hname. rewrite Hstep. case_bool_decide as Hreserved; [done|].
    rewrite !not_elem_of_cons in Hname. rewrite !not_elem_of_cons in Hreserved.
    destruct Hname as (? & ? & ? & ? & ? & ? & _), Hreserved as (? & ? & ? & _).
    unfold standard_listeners. rewrite !filter_cons. simpl.
    rewrite !decide_False by congruence. done.
Qed.

(** X20. When the library connects an object that carries the eight
    listeners, its connect listener authenticates and joins the customer room
    on the object held in [socket] at that moment, then calls [onConnect]: if
    another object is held, the one that connected emits nothing; and if
    [socket] is null the listener throws before [onConnect] is called. *)
Theorem connect_acts_on_held_socket (w : World) s o customerId callbacks :
  sockets w !! s = Some o ->
  connected o = false ->
  closed o = false ->
  listeners o = standard_listeners customerId callbacks ->
  let connecting :=
    with_console (console w ++ [Log "🔌 Connected to MyEzz real-time server" []])
      (with_sockets (alter (set_connected true) s (sockets w)) w) in
  (forall h,
     socket w = Some h ->
     let emitting :=
       with_sockets
         (alter (add_emitted "customer:join" customerId) h
            (alter (add_emitted "authenticate"
                      (VObj [("type", VStr "customer"); ("id", customerId)])) h
               (sockets connecting)))
         connecting in
     step (Transport_up s) w
     = (inl tt,
        match onConnect callbacks with
        | Some f => with_calls (calls w ++ [(f, [])]) emitting
        | None => emitting
        end)
     /\ (h <> s -> sockets emitting !! s = Some (set_connected true o)))
  /\ (socket w = None ->
      step (Transport_up s) w
      = (inr (TypeError "Cannot read properties of null"), connecting)).
Proof.
  intros Ho Hc Hopen Hl connecting.
  assert (step (Transport_up s) w
          = (fire s "connect" VUndefined
               (with_sockets (alter (set_connected true) s (sockets w)) w))) as Hstep.
  { simpl. unfold library_event. by rewrite Ho, Hc, Hopen. }
  rewrite Hstep.
  rewrite (fire_standard s _ _ _ (set_connected true o) customerId callbacks)
    by (simpl; by rewrite ?list_lookup_alter_eq, ?Ho).
  split.
  - intros h Hh emitting. split.
    + simpl. unfold socket_emit, the_socket, sock_emit, update_socket, console_log,
        mbind, M_bind. simpl.
      rewrite Hh. simpl. rewrite ?Hh. simpl. by destruct (onConnect callbacks).
    + intros Hne. simpl. rewrite !list_lookup_alter_ne by done.
      by rewrite list_lookup_alter_eq, Ho.
  - intros Hnull. simpl.
    unfold socket_emit, the_socket, sock_emit, update_socket, console_log,
        mbind, M_bind. simpl.
    by rewrite Hnull.
Qed.

(** ** More on requests *)

(** X21. For an order id that is a string without the ['MYE-'] prefix,
    [getOrderStatus] makes exactly one request, to the rider backend, and
    its outcome is the outcome of that request: the data of the answer, or
    the rejection, logged and rethrown. *)
Theorem getOrderStatus_rider_only (s : string) (w : World) :
  String.prefix "MYE-" s = false ->
  let fetch := get_request riderApiClient ("/api/orders/" +:+ s) [] in
  getOrderStatus (VStr s) w
  = match backend w (requests w) fetch with
    | inl response => (inl (data response), with_requests (requests w ++ [fetch]) w)
    | inr e =>
        (inr e,
         with_console (console w ++ status_error_line e)
           (with_requests (requests w ++ [fetch]) w))
    end.
Proof.
  intros Hmye fetch.
  unfold getOrderStatus, try_catch, mbind, M_bind, lift, axios_get, http. simpl.
  rewrite Hmye. simpl. fold fetch. by destruct (backend w (requests w) fetch).
Qed.

Lemma place_each_rejected o entries acc (w : World) i entry e :
  let posts := (fun entry => post_request unifiedApiClient "/orders"
                               (group_payload o entry.1 entry.2)) <$> entries in
  entries !! i = Some entry ->
  (forall j post, j < i -> posts !! j = Some post ->
                  exists response,
                    backend w (requests w ++ take j posts) post = inl response) ->
  backend w (requests w ++ take i posts)
    (post_request unifiedApiClient "/orders" (group_payload o entry.1 entry.2))
  = inr e ->
  place_each o entries acc w
  = (inr e, with_requests (requests w ++ take (S i) posts) w).
Proof.
  revert acc w i. induction entries as [|[k items] rest IH]; intros acc w i posts;
    [done|].
  destruct i as [|i]; intros Hentry Hanswered Hrejected.
  - injection Hentry as <-. simpl in *. rewrite app_nil_r in Hrejected.
    unfold mbind, M_bind, axios_post, http. by rewrite Hrejected.
  - simpl in Hentry.
    destruct (Hanswered 0 (post_request unifiedApiClient "/orders" (group_payload o k items)))
      as (response & Hfirst); [lia | done |].
    simpl in Hfirst. rewrite app_nil_r in Hfirst.
    simpl. unfold mbind, M_bind, axios_post, http. rewrite Hfirst.
    erewrite (IH _ _ i); [| exact Hentry | |].
    + simpl. unfold with_requests. simpl. by rewrite <- app_assoc.
    + intros j post Hj Hpost. simpl.
      destruct (Hanswered (S j) post) as (response' & Hpost'); [lia | done |].
      exists response'. simpl in Hpost'. by rewrite <- app_assoc.
    + simpl. subst posts. simpl in Hrejected. by rewrite <- app_assoc.
Qed.

(** X22. In an order for several restaurants, when the post for one group
    is rejected after the posts before it were answered, [placeOrder] rejects
    with that error and stops there: the earlier orders have been placed and
    stay placed, nothing about them is returned, and the groups after it are
    never sent. *)
Theorem placeOrder_stops_at_rejection (o : OrderData) (w : World) groups i post e :
  groupItemsByRestaurant (cart o) = inl groups ->
  length groups <> 1 ->
  group_posts o groups !! i = Some post ->
  (forall j earlier, j < i -> group_posts o groups !! j = Some earlier ->
                     exists response,
                       backend w (requests w ++ take j (group_posts o groups)) earlier
                       = inl response) ->
  backend w (requests w ++ take i (group_posts o groups)) post = inr e ->
  placeOrder o w
  = (inr e, with_requests (requests w ++ take (S i) (group_posts o groups)) w).
Proof.
  intros Hgroups Hmulti Hpost Hanswered Hrejected.
  rewrite (placeOrder_multi o w groups) by done.
  unfold group_posts in *. rewrite list_lookup_fmap in Hpost.
  destruct (Object_entries groups !! i) as [entry|] eqn:Hentry; [|done].
  injection Hpost as <-.
  by rewrite (place_each_rejected o _ [] w i entry e).
Qed.

(** ** The restaurant named in an order *)

Lemma filter_first {A} (P : A -> Prop) `{forall x, Decision (P x)} (l : list A) x rest :
  filter P l = x :: rest ->
  exists before after,
    l = before ++ x :: after /\ P x /\ Forall (fun y => ~ P y) before.
Proof.
  induction l as [|y l IH]; [done|]. rewrite filter_cons.
  destruct (decide (P y)) as [Hy|Hy].
  - intros [= -> _]. by exists [], l.
  - intros (before & after & -> & Hx & Hbefore)%IH.
    exists (y :: before), after. split; [done|]. split; [done | by constructor].
Qed.

(** X23. The restaurant name sent with the order of a group is read off the
    first item of that restaurant in the cart: its [vendor] if truthy,
    otherwise its [restaurantName] if truthy, otherwise ['Restaurant']; the
    other items of the group have no say. *)
Theorem restaurant_named_by_first_item (o : OrderData) groups k items :
  groupItemsByRestaurant (cart o) = inl groups ->
  (k, items) ∈ groups ->
  exists before first after,
    cart o = before ++ first :: after
    /\ restaurant_key first = k
    /\ Forall (fun item => restaurant_key item <> k) before
    /\ field "restaurantName" (group_payload o k items)
       = Some (if truthy (item_vendor first) then item_vendor first
               else if truthy (item_restaurantName first) then item_restaurantName first
               else VStr "Restaurant").
Proof.
  intros Hgroups Hin.
  pose proof (groupItemsByRestaurant_outcome (cart o)) as Hout.
  rewrite Hgroups in Hout. destruct Hout as (_ & Hnd & _ & Hget).
  apply elem_of_own_get in Hin; [|done]. rewrite Hget in Hin.
  destruct (filter _ (cart o)) as [|first rest] eqn:Hfilter; [done|].
  injection Hin as <-.
  destruct (filter_first _ _ _ _ Hfilter) as (before & after & Hcart & Hkey & Hbefore).
  exists before, first, after. split; [done|]. split; [done|]. split; [done|].
  simpl. unfold js_or. destruct (truthy (item_vendor first)) eqn:Hv; [by rewrite Hv|].
  by destruct (truthy (item_restaurantName first)) eqn:Hr; rewrite ?Hr.
Qed.

(** ** Losing the connection *)


End MyEzz.

(** * The properties at concrete inputs *)

(** [initializeRealtimeConnection] again, once the first connection is up. *)
Lemma initialize_connected_noop_witness :
  socket (sample_connected (num:=znum)) = Some 0
  /\ connected <$> sockets (sample_connected (num:=znum)) !! 0 = Some true
  /\ initializeRealtimeConnection (VStr "u2") sample_callbacks sample_connected
     = (inl (Some 0), sample_connected (num:=znum)).
Proof.
  split; [reflexivity|]. split; [reflexivity|].
  eapply initialize_connected_noop; reflexivity.
Defined.

(** Subscribing while the connection is still being made. *)
Lemma subscribe_unsubscribe_noop_witness :
  subscribeToOrder (VStr "MYE-7") (sample_connecting (num:=znum))
    = (inl tt, sample_connecting)
  /\ unsubscribeFromOrder (VStr "MYE-7") (sample_connecting (num:=znum))
    = (inl tt, sample_connecting).
Proof.
  apply subscribe_unsubscribe_noop. right. eexists 0, _.
  split; [reflexivity|]. split; reflexivity.
Defined.

(** An order the unified backend does not track, and an id without the
    prefix. *)
Lemma getOrderStatus_falls_back_witness :
  getOrderStatus (VStr "MYE-7") (loaded (num:=znum) untracked_backend [])
  = (inl (VObj [("status", VStr "picked_up")]),
     with_requests
       [ get_request unifiedApiClient "/orders/MYE-7/track" [];
         get_request riderApiClient "/api/orders/MYE-7" [] ]
       (loaded untracked_backend []))
  /\ exists sent,
       requests (getOrderStatus (VStr "42") (loaded (num:=znum) untracked_backend [])).2
       = sent
       /\ Forall (fun r => req_client r = riderApiClient) sent.
Proof.
  split.
  - apply (proj1 (getOrderStatus_falls_back (VStr "MYE-7") (loaded untracked_backend []))
             "MYE-7" (VObj [("success", VBool false)]) (VBool false));
      reflexivity.
  - destruct (proj2 (getOrderStatus_falls_back (VStr "42")
                       (loaded (num:=znum) untracked_backend [])))
      as (sent & Hsent & Hrider).
    + intros s [= <-]. reflexivity.
    + exists sent. split; [exact Hsent | exact Hrider].
Defined.

(** The sample order: two groups, totals 80 + 30 + 5 and 360 + 30 + 5, in
    the order of the keys ['2'], ['10']. *)
Lemma placeOrder_group_totals_witness :
  exists groups,
    groupItemsByRestaurant (num:=znum) sample_cart = inl groups
    /\ length groups = 2
    /\ requests (placeOrder sample_order (loaded ok_backend [])).2
       = group_posts sample_order groups
    /\ field "total" <$> (req_data <$> group_posts sample_order groups)
       = [Some (VNum (ZInt 115)); Some (VNum (ZInt 395))].
Proof.
  edestruct (placeOrder_group_totals (num:=znum) sample_order (loaded ok_backend []))
    as (_ & (n & Hn & Hreq & Hall) & _ & _).
  - reflexivity.
  - vm_compute. lia.
  - eexists. split; [reflexivity|]. split; [reflexivity|]. split; [|reflexivity].
    rewrite Hreq, (Hall _ eq_refl). reflexivity.
Defined.

(** The sample cart: the groups ['10'] and ['2']. *)
Lemma groupItemsByRestaurant_partitions_witness :
  exists groups,
    groupItemsByRestaurant (num:=znum) sample_cart = inl groups
    /\ groups.*1 = ["10"; "2"]
    /\ concat groups.*2 ≡ₚ sample_cart.
Proof.
  destruct (groupItemsByRestaurant_partitions (num:=znum) sample_cart)
    as (groups & Hrun & _ & Hperm & _).
  - repeat constructor.
  - exists groups. split; [exact Hrun|]. split; [|exact Hperm].
    vm_compute in Hrun. by injection Hrun as <-.
Defined.

(** C5 as worded fails on an item whose [restaurantId] is the number 0: the
    property is present, and the specification's key would be ['0'], but the
    item is grouped under its [vendorId], ['7']. *)
Lemma grouping_key_is_not_presence :
  present (item_restaurantId (sample_item_zero (num:=znum))) = true
  /\ spec_restaurant_key (sample_item_zero (num:=znum)) = "0"
  /\ groupItemsByRestaurant [sample_item_zero (num:=znum)]
     = inl [("7", [sample_item_zero])]
  /\ ~ grouped_by_presence [sample_item_zero (num:=znum)].
Proof.
  split; [reflexivity|]. split; [reflexivity|]. split; [reflexivity|].
  intros (groups & Hrun & Hkey).
  assert (groups = [("7", [sample_item_zero])]) as -> by (by injection Hrun as <-).
  destruct (Hkey sample_item_zero) as (items & Hin & _); [apply list_elem_of_here|].
  apply list_elem_of_singleton in Hin. discriminate Hin.
Qed.

(** The sample order against a backend that rejects the second post. *)
Lemma request_errors_propagate_witness :
  (placeOrder (num:=znum) sample_order (loaded second_rejected [])).1
  = inr (Thrown (VStr "Network Error")).
Proof.
  destruct (request_errors_propagate (num:=znum)) as (_ & _ & _ & Hplace & _).
  destruct (Hplace sample_order (loaded second_rejected []))
    as (_ & sent & Hsent & _ & Hrej).
  vm_compute in Hsent. subst sent.
  eapply (Hrej 1); reflexivity.
Defined.

(** ** More properties at concrete inputs *)

(** A cart with an item of restaurant ['constructor']. *)
Lemma placeOrder_rejects_inherited_key_witness :
  placeOrder (sample_order_of [sample_item_zero; sample_item_inherited])
             (loaded (num:=znum) ok_backend [])
  = (inr push_error, loaded ok_backend []).
Proof.
  apply placeOrder_rejects_inherited_key. simpl.
  apply Exists_cons_tl, Exists_cons_hd. discriminate.
Defined.

(** Two items of one restaurant. *)
Lemma placeOrder_single_restaurant_witness :
  (placeOrder (sample_order_of sample_cart_one_restaurant)
              (loaded (num:=znum) ok_backend [])).1
  = inl (VObj [("success", VBool true)])
  /\ length (requests (placeOrder (sample_order_of sample_cart_one_restaurant)
                                  (loaded (num:=znum) ok_backend [])).2) = 1.
Proof.
  destruct (placeOrder_single_restaurant (num:=znum)
              (sample_order_of sample_cart_one_restaurant) (loaded ok_backend [])
              "10" _ _ eq_refl) as [Hplace _].
  - repeat constructor.
  - reflexivity.
  - rewrite Hplace. split; reflexivity.
Defined.

Lemma placeOrder_empty_cart_witness :
  requests (placeOrder (sample_order_of []) (loaded (num:=znum) ok_backend [])).2 = [].
Proof. by rewrite placeOrder_empty_cart. Defined.

(** The sample order, two restaurants, every post answered. *)
Lemma placeOrder_reports_each_group_witness :
  exists orders,
    (placeOrder sample_order (loaded (num:=znum) ok_backend [])).1
    = inl (VObj [ ("success", VBool true); ("data", VArr orders);
                  ("message", VStr "2 orders placed successfully") ])
    /\ length orders = 2.
Proof.
  edestruct (placeOrder_reports_each_group (num:=znum) sample_order (loaded ok_backend []))
    as (orders & Hr & Hlen & _).
  - reflexivity.
  - vm_compute. lia.
  - reflexivity.
  - exists orders. split; [exact (f_equal inl Hr) | exact Hlen].
Defined.

Lemma placeOrder_sends_every_item_once_witness :
  exists sent,
    requests (placeOrder sample_order (loaded (num:=znum) ok_backend [])).2 = sent
    /\ concat (sent_items <$> sent)
       ≡ₚ (fun item => VObj (item_fields item)) <$> sample_cart.
Proof.
  edestruct (placeOrder_sends_every_item_once (num:=znum) sample_order
               (loaded ok_backend [])) as (sent & Hsent & Hitems).
  - reflexivity.
  - vm_compute. lia.
  - reflexivity.
  - exists sent. split; [exact Hsent | exact Hitems].
Defined.

Lemma placeOrder_multi_drops_notes_witness :
  exists sent,
    requests (placeOrder sample_order (loaded (num:=znum) second_rejected [])).2 = sent
    /\ Forall (fun post => field "notes" (req_data post) = None) sent.
Proof.
  edestruct (placeOrder_multi_drops_notes (num:=znum) sample_order
               (loaded second_rejected [])) as (sent & Hsent & Hnotes).
  - reflexivity.
  - vm_compute. lia.
  - exists sent. split; [exact Hsent|].
    eapply Forall_impl; [exact Hnotes | by intros post [Hpost _]].
Defined.

(** A tracked order: the stored status is replaced by the current one. *)
Lemma getOrderStatus_tracked_witness :
  exists result,
    getOrderStatus (VStr "MYE-7") (loaded (num:=znum) tracking_backend [])
    = (inl (VObj result),
       with_requests [get_request unifiedApiClient "/orders/MYE-7/track" []]
         (loaded tracking_backend []))
    /\ own_get result "orderId" = Some (VStr "MYE-7")
    /\ own_get result "status" = Some (VStr "preparing").
Proof.
  edestruct (getOrderStatus_tracked (num:=znum) "MYE-7" (loaded tracking_backend []))
    as (result & Hrun & Hstatus & _ & Hother); [reflexivity.. |].
  exists result. split; [exact Hrun|]. split; [|exact Hstatus].
  by rewrite Hother.
Defined.

Lemma getOrderStatus_unreadable_answer_witness :
  exists msg,
    (getOrderStatus (VStr "MYE-7") (loaded (num:=znum) hollow_backend [])).1
    = inr (TypeError msg)
    /\ requests (getOrderStatus (VStr "MYE-7") (loaded (num:=znum) hollow_backend [])).2
       = [get_request unifiedApiClient "/orders/MYE-7/track" []].
Proof.
  edestruct (getOrderStatus_unreadable_answer (num:=znum) "MYE-7"
               (loaded hollow_backend [])) as (msg & Hrun).
  - reflexivity.
  - reflexivity.
  - right. right. eexists. split; [reflexivity|]. split; [reflexivity|]. by left.
  - exists msg. by rewrite Hrun.
Defined.

Lemma getOrderStatus_not_a_string_witness :
  exists msg,
    getOrderStatus (VNum (ZInt 42)) (loaded (num:=znum) ok_backend [])
    = (inr (TypeError msg),
       with_console (status_error_line (TypeError msg)) (loaded ok_backend [])).
Proof. by apply (getOrderStatus_not_a_string (num:=znum)). Defined.

(** The first call on a freshly loaded module. *)
Lemma initialize_creates_and_binds_witness :
  (initializeRealtimeConnection (VStr "u1") sample_callbacks
     (loaded (num:=znum) ok_backend [])).1
  = inl (Some 0).
Proof. rewrite initialize_creates_and_binds; [reflexivity | by left]. Defined.

(** A second call while the first connection is still being made. *)
Lemma initialize_abandons_unconnected_witness :
  abandoned
    (initializeRealtimeConnection (VStr "u2") sample_callbacks
       (sample_connecting (num:=znum))).2 0.
Proof.
  eapply (initialize_abandons_unconnected (num:=znum)); reflexivity.
Defined.

Lemma subscribe_unsubscribe_emit_witness :
  emitted <$> sockets (subscribeToOrder (VStr "MYE-7") (sample_connected (num:=znum))).2
  = [ [ ("authenticate", VObj [("type", VStr "customer"); ("id", VStr "u1")]);
        ("customer:join", VStr "u1");
        ("order:subscribe", VStr "MYE-7");
        ("customer:track_order", VStr "MYE-7") ] ].
Proof.
  edestruct (subscribe_unsubscribe_emit (num:=znum) (VStr "MYE-7") sample_connected 0)
    as [Hsub _]; [reflexivity.. |].
  rewrite Hsub. reflexivity.
Defined.


(** The server reports a status on the sample connection. *)
Lemma server_events_relayed_witness :
  calls (step (Server_event 0 "order_status_updated" (VStr "preparing"))
           (sample_connected (num:=znum))).2
  = [("handleConnect", []); ("handleStatus", [VStr "preparing"])].
Proof.
  edestruct (server_events_relayed (num:=znum) sample_connected 0)
    as (_ & _ & Hstatus & _); [reflexivity.. |].
  rewrite Hstatus. reflexivity.
Defined.

(** After two calls in a row, the first object connects: the second one
    emits. *)
Lemma connect_acts_on_held_socket_witness :
  emitted <$> sockets (step (Transport_up 0) (sample_twice (num:=znum))).2
  = [ [];
      [ ("authenticate", VObj [("type", VStr "customer"); ("id", VStr "u1")]);
        ("customer:join", VStr "u1") ] ].
Proof.
  edestruct (connect_acts_on_held_socket (num:=znum) sample_twice 0) as [Hheld _];
    [reflexivity.. |].
  destruct (Hheld 1 eq_refl) as [Hstep _]. rewrite Hstep. reflexivity.
Defined.

(** An order id without the prefix goes to the rider backend alone. *)
Lemma getOrderStatus_rider_only_witness :
  getOrderStatus (VStr "42") (loaded (num:=znum) untracked_backend [])
  = (inl (VObj [("status", VStr "picked_up")]),
     with_requests [get_request riderApiClient "/api/orders/42" []]
       (loaded untracked_backend [])).
Proof. by rewrite getOrderStatus_rider_only. Defined.

(** The sample order against a backend that rejects the second post: the
    first order is placed, the caller only learns of the error. *)
Lemma placeOrder_stops_at_rejection_witness :
  (placeOrder sample_order (loaded (num:=znum) second_rejected [])).1
  = inr (Thrown (VStr "Network Error"))
  /\ length (requests (placeOrder sample_order (loaded (num:=znum) second_rejected [])).2)
     = 2.
Proof.
  erewrite (placeOrder_stops_at_rejection (num:=znum) sample_order
              (loaded second_rejected []) _ 1); cycle 1.
  - reflexivity.
  - vm_compute. lia.
  - reflexivity.
  - intros [|j] earlier Hj Hearlier; [|lia]. eexists. reflexivity.
  - reflexivity.
  - split; reflexivity.
Defined.

(** The group of restaurant ['2'] in the sample cart. *)
Lemma restaurant_named_by_first_item_witness :
  exists before first after,
    sample_cart (num:=znum) = before ++ first :: after
    /\ restaurant_key first = "2"
    /\ Forall (fun item => restaurant_key item <> "2") before.
Proof.
  edestruct (restaurant_named_by_first_item (num:=znum) sample_order)
    as (before & first & after & Hcart & Hkey & Hbefore & _).
  - reflexivity.
  - apply list_elem_of_further, list_elem_of_here.
  - by exists before, first, after.
Defined.

